(** * RateLimiter: bounded retry with exponential backoff

    A shallow embedding of [utils/rate_limiter.py] (class [RateLimiter]) and
    the properties of its retry loop, with some helpers of
    [utils/helpers.py].

    Conventions of the embedding.
    - A Python [str] is a [string] whose characters are read as the code
      points U+0000 .. U+00FF.
    - A Python [int] is a [Z]; [int(str)] refuses numerals of more than
      4300 digits, as the interpreter does by default.
    - A Python [float] is a [Float]: a finite value, held as an exact
      rational, or an infinity, or nan.  Arithmetic is exact on finite
      values, so rounding is outside the model, but it keeps the range of
      binary64: a result of magnitude [2^1024 - 2^970] or more is
      infinite, an [int] of that magnitude does not convert
      ([OverflowError]), and the indeterminate forms are nan.
    - The attributes of a policy and the readings of the clock are finite
      floats.  A reading of [time.time] is a time of the system clock, far
      inside the range of binary64, so [int(time.time() * 1000)] is
      computed as on rationals; the clock is likewise never so far behind
      the last request that the pacing wait would leave the range that
      [time.sleep] accepts.
    - [time.sleep] accepts a finite duration that is not negative and
      stays below [2^63] nanoseconds; what a platform does with a wait of
      centuries below that limit is outside the model.
    - [time.time], [time.sleep] and [random.random] act on an explicit
      [World]; the wrapped callable is opaque and is represented by the
      outcomes of its successive invocations.
    - Exceptions of the callable are values of an abstract type [Exc] (the
      instances of [Exception] it may raise); [exc_str] is [str(e)]. *)

From Stdlib Require Import ZArith QArith Qpower Qround Lqa Lia List Bool
  Ascii String.
Import ListNotations.

Local Open Scope Z_scope.

(** ** Strings *)

Module PyStr.

Local Open Scope N_scope.

Definition dquote : ascii := ascii_of_N 34.
Definition squote : ascii := ascii_of_N 39.

(** The character class of the regular expression that holds the double
    and the single quote. *)
Definition is_quote (c : ascii) : bool :=
  Ascii.eqb c dquote || Ascii.eqb c squote.

(** [\s] of [re] on [str] patterns, which is [str.isspace] per character. *)
Definition isspace (c : ascii) : bool :=
  let n := N_of_ascii c in
  ((9 <=? n) && (n <=? 13)) || ((28 <=? n) && (n <=? 32))
  || (n =? 133) || (n =? 160).

(** The blanks [int] strips around a numeral: the file separators
    U+001C .. U+001F are white space for [re] but not for [int]. *)
Definition is_int_space (c : ascii) : bool :=
  let n := N_of_ascii c in
  ((9 <=? n) && (n <=? 13)) || (n =? 32) || (n =? 133) || (n =? 160).

Definition is_digit (c : ascii) : bool :=
  let n := N_of_ascii c in (48 <=? n) && (n <=? 57).

Definition digit_value (c : ascii) : Z := Z.of_N (N_of_ascii c - 48).

(** [str.lower] on one character: A-Z and the capital letters of Latin-1. *)
Definition lower_char (c : ascii) : ascii :=
  let n := N_of_ascii c in
  if ((65 <=? n) && (n <=? 90))
     || ((192 <=? n) && (n <=? 222) && negb (n =? 215))
  then ascii_of_N (n + 32) else c.

Fixpoint lower (s : string) : string :=
  match s with
  | EmptyString => EmptyString
  | String c s' => String (lower_char c) (lower s')
  end.

(** [s.startswith(p)] *)
Fixpoint startswith (p s : string) : bool :=
  match p, s with
  | EmptyString, _ => true
  | String _ _, EmptyString => false
  | String a p', String b s' => Ascii.eqb a b && startswith p' s'
  end.

(** [kw in s]: some suffix of [s] starts with [kw]. *)
Fixpoint contains (kw s : string) : bool :=
  startswith kw s
  || match s with
     | EmptyString => false
     | String _ s' => contains kw s'
     end.

(** What is left of [s] after the literal [p], when [s] starts with it. *)
Fixpoint strip_prefix (p s : string) : option string :=
  match p, s with
  | EmptyString, _ => Some s
  | String _ _, EmptyString => None
  | String a p', String b s' =>
      if Ascii.eqb a b then strip_prefix p' s' else None
  end.

End PyStr.

(** ** [int(str)] in base ten *)

Module PyInt.

Import PyStr.

Fixpoint lstrip (s : string) : string :=
  match s with
  | String c s' => if is_int_space c then lstrip s' else s
  | EmptyString => EmptyString
  end.

Fixpoint rstrip (s : string) : string :=
  match s with
  | EmptyString => EmptyString
  | String c s' =>
      match rstrip s' with
      | EmptyString => if is_int_space c then EmptyString
                       else String c EmptyString
      | r => String c r
      end
  end.

(** Digits with single underscores between them.  [acc] is the value read
    so far and [after_digit] tells whether the previous character was a
    digit: an underscore is legal only there, and the numeral has to end on
    a digit. *)
Fixpoint digits (s : string) (acc : Z) (after_digit : bool) : option Z :=
  match s with
  | EmptyString => if after_digit then Some acc else None
  | String c s' =>
      if is_digit c then digits s' (10 * acc + digit_value c) true
      else if Ascii.eqb c "_" && after_digit then digits s' acc false
      else None
  end.

(** The default of [sys.get_int_max_str_digits]. *)
Definition max_str_digits : Z := 4300.

Fixpoint digit_count (s : string) : Z :=
  match s with
  | EmptyString => 0
  | String c s' => (if is_digit c then 1 else 0) + digit_count s'
  end.

(** [int(s)]; [None] is [ValueError], for a text that is no numeral and for
    a numeral of more than [max_str_digits] digits alike. *)
Definition int (s : string) : option Z :=
  let body := rstrip (lstrip s) in
  if digit_count body >? max_str_digits then None
  else
    match body with
    | String "-" r => option_map Z.opp (digits r 0 false)
    | String "+" r => digits r 0 false
    | r => digits r 0 false
    end.

(** [int(x)] on a finite float truncates towards zero. *)
Definition int_of_float (x : Q) : Z := Z.quot (Qnum x) (Zpos (Qden x)).

End PyInt.

(** ** Floats and the errors of the built-in operations *)

Inductive BuiltinError : Type := OverflowError | ValueError.

(** The result of an operation that may raise. *)
Inductive Raises (A : Type) : Type :=
| Value (a : A)
| Error (x : BuiltinError).

Arguments Value {A} a.
Arguments Error {A} x.

Module PyFloat.

Local Open Scope Q_scope.

Inductive Float : Type :=
| Fin (q : Q)
| PInf
| NInf
| NaN.

(** The least integer that is too large for a float: half an ulp above the
    largest finite value. *)
Definition int_limit : Z := 2 ^ 1024 - 2 ^ 970.

Definition limit : Q := inject_Z int_limit.

(** The float of an exact result: infinite from [limit] on. *)
Definition round (q : Q) : Float :=
  if Qlt_le_dec q limit
  then if Qlt_le_dec (- limit) q then Fin q else NInf
  else PInf.

(** The conversion that [float * int] and [int / float] apply to their
    [int] operand; [None] is [OverflowError]. *)
Definition of_int (n : Z) : option Q :=
  if (Z.abs n <? int_limit)%Z then Some (inject_Z n) else None.

(** [2 ** n] for a negative [n], which is a float: exact down to the
    smallest subnormal and zero below it. *)
Definition pow2_negative (n : Z) : Q :=
  if (n <? -1074)%Z then 0 else Qpower 2 n.

(** An infinity times a finite value. *)
Definition scale_inf (positive : bool) (q : Q) : Float :=
  if Qeq_bool q 0 then NaN
  else if Qlt_le_dec 0 q then (if positive then PInf else NInf)
  else (if positive then NInf else PInf).

Definition mul (a b : Float) : Float :=
  match a, b with
  | NaN, _ | _, NaN => NaN
  | Fin x, Fin y => round (x * y)
  | Fin x, PInf | PInf, Fin x => scale_inf true x
  | Fin x, NInf | NInf, Fin x => scale_inf false x
  | PInf, PInf | NInf, NInf => PInf
  | PInf, NInf | NInf, PInf => NInf
  end.

Definition add (a b : Float) : Float :=
  match a, b with
  | NaN, _ | _, NaN => NaN
  | Fin x, Fin y => round (x + y)
  | PInf, NInf | NInf, PInf => NaN
  | PInf, _ | _, PInf => PInf
  | NInf, _ | _, NInf => NInf
  end.

Definition opp (a : Float) : Float :=
  match a with
  | Fin x => Fin (- x)
  | PInf => NInf
  | NInf => PInf
  | NaN => NaN
  end.

Definition sub (a b : Float) : Float := add a (opp b).

(** [a < b]; every comparison with nan is false. *)
Definition lt (a b : Float) : bool :=
  match a, b with
  | NaN, _ | _, NaN => false
  | Fin x, Fin y => if Qlt_le_dec x y then true else false
  | NInf, NInf => false
  | NInf, _ => true
  | _, NInf => false
  | PInf, _ => false
  | Fin _, PInf => true
  end.

(** [min(a, b)] and [max(a, b)] of Python keep their first argument unless
    the second one beats it strictly. *)
Definition fmin (a b : Float) : Float := if lt b a then b else a.
Definition fmax (a b : Float) : Float := if lt a b then b else a.

(** The nearest integer, ties to the even one. *)
Definition round_half_even (q : Q) : Z :=
  let f := Qfloor q in
  match Qcompare (q - inject_Z f) (1 # 2) with
  | Lt => f
  | Gt => (f + 1)%Z
  | Eq => if Z.even f then f else (f + 1)%Z
  end.

(** What a format specification [.2f] shows of a float: a number of
    hundredths, or the name of a special value. *)
Inductive Formatted : Type :=
| Hundredths (h : Z)
| FormattedInf (negative : bool)
| FormattedNaN.

Definition format_2f (x : Float) : Formatted :=
  match x with
  | Fin q => Hundredths (round_half_even (q * 100))
  | PInf => FormattedInf false
  | NInf => FormattedInf true
  | NaN => FormattedNaN
  end.

(** The argument check of [time.sleep], which takes the duration in
    nanoseconds as a 64-bit integer: nan is refused with [ValueError], a
    duration outside that range with [OverflowError] and a negative one
    with [ValueError]. *)
Definition sleep_duration (d : Float) : Raises Q :=
  match d with
  | NaN => Error ValueError
  | PInf | NInf => Error OverflowError
  | Fin q =>
      let nanoseconds := q * inject_Z (10 ^ 9) in
      if Qlt_le_dec nanoseconds (inject_Z (2 ^ 63)) then
        if Qlt_le_dec nanoseconds (- inject_Z (2 ^ 63))
        then Error OverflowError
        else if Qlt_le_dec q 0 then Error ValueError
        else Value q
      else Error OverflowError
  end.

End PyFloat.

(** ** The header pattern of [_extract_retry_after]

    Writing Q for the class of the two quote characters, the pattern is
    [X-RateLimit-Reset Q : \s* Q ([^Q]+) Q].  Each repetition is followed by
    a character outside its class, so the greedy choice is the only one that
    can match and the matcher needs no backtracking. *)

Module Re.

Import PyStr.

(** [\s*] *)
Fixpoint skip_spaces (s : string) : string :=
  match s with
  | String c s' => if isspace c then skip_spaces s' else s
  | EmptyString => EmptyString
  end.

(** [[^Q]*]: the longest prefix without a quote, and what follows it. *)
Fixpoint span_unquoted (s : string) : string * string :=
  match s with
  | String c s' =>
      if is_quote c then (EmptyString, s)
      else let (g, r) := span_unquoted s' in (String c g, r)
  | EmptyString => (EmptyString, EmptyString)
  end.

(** The pattern anchored at the start of [s]; the result is group 1. *)
Definition match_here (s : string) : option string :=
  match strip_prefix "X-RateLimit-Reset" s with
  | Some (String q1 (String ":" r)) =>
      if is_quote q1 then
        match skip_spaces r with
        | String q2 r2 =>
            if is_quote q2 then
              match span_unquoted r2 with
              | (String c g, String _ _) => Some (String c g)
              | _ => None
              end
            else None
        | EmptyString => None
        end
      else None
  | _ => None
  end.

(** [re.search]: the match at the leftmost position that has one. *)
Fixpoint search (s : string) : option string :=
  match match_here s with
  | Some g => Some g
  | None =>
      match s with
      | EmptyString => None
      | String _ s' => search s'
      end
  end.

End Re.

(** ** The executor *)

Local Open Scope Q_scope.

(** [min(a, b)] and [max(a, b)] of Python keep their first argument unless
    the second one beats it strictly. *)
Definition py_min (a b : Q) : Q := if Qlt_le_dec b a then b else a.
Definition py_max (a b : Q) : Q := if Qlt_le_dec a b then b else a.

(** [range(n)] *)
Definition py_range (n : Z) : list Z := map Z.of_nat (seq 0 (Z.to_nat n)).

(** The attributes of a [RateLimiter] instance. *)
Record RateLimiter : Type := mkRateLimiter {
  max_retries : Z;
  base_delay : Q;
  max_delay : Q;
  last_request_time : Q;
  request_count : Z
}.

(** [RateLimiter.__init__] *)
Definition __init__ (max_retries : Z) (base_delay max_delay : Q)
  : RateLimiter :=
  mkRateLimiter max_retries base_delay max_delay 0 0.

(** [RateLimiter()] with the default arguments. *)
Definition default_rate_limiter : RateLimiter := __init__ 3%Z 1 60.

(** What the executor reads and moves outside itself: the wall clock, the
    number of invocations of the callable so far and the number of draws
    taken from [random.random]. *)
Record World : Type := mkWorld {
  clock : Q;
  calls : nat;
  drawn : nat
}.

Definition time_time (w : World) : Q := clock w.

Definition time_sleep (d : Q) (w : World) : World :=
  mkWorld (clock w + d) (calls w) (drawn w).

Section Executor.

Variables Res Exc : Type.

(** [str(e)] *)
Variable exc_str : Exc -> string.

Inductive Outcome : Type :=
| Success (result : Res)
| Failure (e : Exc).

(** One run of the surroundings: the outcome and the duration of each
    invocation of the callable, in order, and the successive values of
    [random.random()]. *)
Record Env : Type := mkEnv {
  script : nat -> Outcome;
  op_time : nat -> Q;
  rng : nat -> Q
}.

Variable env : Env.

Definition random_random (w : World) : Q * World :=
  (rng env (drawn w), mkWorld (clock w) (calls w) (S (drawn w))).

(** [func( *args, **kwargs )] *)
Definition invoke (w : World) : Outcome * World :=
  (script env (calls w),
   mkWorld (clock w + op_time env (calls w)) (S (calls w)) (drawn w)).

(** [RateLimiter._extract_retry_after] *)
Definition _extract_retry_after (error_message : string) (w : World)
  : Raises (option Q) :=
  match Re.search error_message with
  | Some group1 =>
      match PyInt.int group1 with
      | Some reset_timestamp =>
          let current_time := PyInt.int_of_float (time_time w * 1000) in
          if (reset_timestamp >? current_time)%Z
          then
            match PyFloat.of_int (reset_timestamp - current_time) with
            | Some difference => Value (Some (difference / 1000))
            | None => Error OverflowError
            end
          else Value None
      | None => Value None
      end
  | None => Value None
  end.

(** Truth value of an [Optional[float]]: [None] and [0.0] are false. *)
Definition truthy (x : option Q) : bool :=
  match x with
  | Some d => negb (Qeq_bool d 0)
  | None => false
  end.

(** [RateLimiter._calculate_delay].  An error of the hint extraction, or of
    the conversion of [2 ** attempt] to a float, leaves the function before
    the jitter is drawn. *)
Definition _calculate_delay (self : RateLimiter) (attempt : Z)
  (error_message : string) (w : World) : Raises PyFloat.Float * World :=
  match _extract_retry_after error_message w with
  | Error x => (Error x, w)
  | Value retry_after =>
      let exponential : Raises PyFloat.Float :=
        if (0 <=? attempt)%Z then
          match PyFloat.of_int (2 ^ attempt) with
          | Some power =>
              Value (PyFloat.mul (PyFloat.Fin (base_delay self))
                       (PyFloat.Fin power))
          | None => Error OverflowError
          end
        else
          Value (PyFloat.mul (PyFloat.Fin (base_delay self))
                   (PyFloat.Fin (PyFloat.pow2_negative attempt))) in
      let start : Raises PyFloat.Float :=
        match retry_after with
        | Some d => if truthy retry_after then Value (PyFloat.Fin d)
                    else exponential
        | None => exponential
        end in
      match start with
      | Error x => (Error x, w)
      | Value delay =>
          let (r, w1) := random_random w in
          let jitter :=
            PyFloat.mul (PyFloat.mul delay (PyFloat.Fin (1 # 4)))
              (PyFloat.sub (PyFloat.mul (PyFloat.Fin r) (PyFloat.Fin 2))
                 (PyFloat.Fin 1)) in
          let delay := PyFloat.add delay jitter in
          let delay := PyFloat.fmin delay (PyFloat.Fin (max_delay self)) in
          (Value (PyFloat.fmax delay (PyFloat.Fin (1 # 10))), w1)
      end
  end.

Definition keywords : list string :=
  ["rate limit"; "429"; "too many requests"; "quota exceeded"]%string.

(** [RateLimiter._is_rate_limit_error] *)
Definition _is_rate_limit_error (self : RateLimiter) (error : Exc) : bool :=
  let error_str := PyStr.lower (exc_str error) in
  existsb (fun keyword => PyStr.contains keyword error_str) keywords.

(** The log records, with the values their messages show: the retry
    warning shows the attempt counted from one, the number of attempts
    allowed, the delay to two decimals and the error. *)
Inductive LogRecord : Type :=
| LogRecovered (attempt : Z)
| LogNonRateLimit (e : Exc)
| LogExhausted (retries : Z) (e : Exc)
| LogRetry (number total : Z) (delay : PyFloat.Formatted) (e : Exc).

(** What a run does that can be observed from outside, in order: the
    blocking waits, the invocations (with the time recorded as the start of
    the attempt) and the log records. *)
Inductive Event : Type :=
| EvSleep (d : Q)
| EvInvoke (started : Q)
| EvLog (l : LogRecord).

(** Where in the [except] block a built-in operation raised. *)
Inductive HandlerSite : Type := InCalculateDelay | InSleep.

(** How a call ends.  [RaisedTypeError] is what [raise None] raises, and
    [RaisedInHandler] is an error of a built-in operation raised while the
    error of the callable was being handled, which replaces it. *)
Inductive Completion : Type :=
| Returned (result : Res)
| Raised (e : Exc)
| RaisedTypeError
| RaisedInHandler (site : HandlerSite) (x : BuiltinError).

(** How the [for] statement is left: by a [return] or [raise] of its body,
    or by running out of attempts with the current [last_exception]. *)
Inductive LoopExit : Type :=
| Finished (c : Completion)
| FellThrough (last_exception : option Exc).

(** The pacing step that opens the [try] block: wait until the minimum
    interval since the last request has gone by, then record the request. *)
Definition pace (self : RateLimiter) (w : World)
  : RateLimiter * World * list Event :=
  let current_time := time_time w in
  let time_since_last := current_time - last_request_time self in
  let min_interval := 1 # 5 in
  let (w1, waited) :=
    if Qlt_le_dec time_since_last min_interval
    then (time_sleep (min_interval - time_since_last) w,
          [EvSleep (min_interval - time_since_last)])
    else (w, []) in
  (mkRateLimiter (max_retries self) (base_delay self) (max_delay self)
     (time_time w1) (request_count self + 1),
   w1, waited).

(** The [for attempt in range(self.max_retries + 1)] statement, by recursion
    on the attempts that are left. *)
Fixpoint attempts_loop (attempts : list Z) (last_exception : option Exc)
  (self : RateLimiter) (w : World)
  : LoopExit * RateLimiter * World * list Event :=
  match attempts with
  | [] => (FellThrough last_exception, self, w, [])
  | attempt :: rest =>
      let '(self1, w1, waited) := pace self w in
      let started := waited ++ [EvInvoke (last_request_time self1)] in
      let (outcome, w2) := invoke w1 in
      match outcome with
      | Success result =>
          (Finished (Returned result), self1, w2,
           started ++ (if (attempt >? 0)%Z
                       then [EvLog (LogRecovered attempt)] else []))
      | Failure e =>
          if negb (_is_rate_limit_error self1 e) then
            (Finished (Raised e), self1, w2,
             started ++ [EvLog (LogNonRateLimit e)])
          else if (attempt =? max_retries self1)%Z then
            (Finished (Raised e), self1, w2,
             started ++ [EvLog (LogExhausted (max_retries self1) e)])
          else
            match _calculate_delay self1 attempt (exc_str e) w2 with
            | (Error x, w3) =>
                (Finished (RaisedInHandler InCalculateDelay x), self1, w3,
                 started)
            | (Value delay, w3) =>
                let warned :=
                  started
                  ++ [EvLog (LogRetry (attempt + 1) (max_retries self1 + 1)
                               (PyFloat.format_2f delay) e)] in
                match PyFloat.sleep_duration delay with
                | Error x =>
                    (Finished (RaisedInHandler InSleep x), self1, w3, warned)
                | Value d =>
                    let w4 := time_sleep d w3 in
                    let '(exit, self', w', later) :=
                      attempts_loop rest (Some e) self1 w4 in
                    (exit, self', w', warned ++ [EvSleep d] ++ later)
                end
            end
      end
  end.

(** [RateLimiter.call_with_retry] *)
Definition call_with_retry (self : RateLimiter) (w : World)
  : Completion * RateLimiter * World * list Event :=
  let '(exit, self', w', events) :=
    attempts_loop (py_range (max_retries self + 1)) None self w in
  match exit with
  | Finished c => (c, self', w', events)
  | FellThrough (Some e) => (Raised e, self', w', events)
  | FellThrough None => (RaisedTypeError, self', w', events)
  end.

(** The number of invocations a run made. *)
Definition invocations (w w' : World) : nat := (calls w' - calls w)%nat.

(** The start times of the attempts of a run, in order. *)
Fixpoint starts (events : list Event) : list Q :=
  match events with
  | [] => []
  | EvInvoke t :: rest => t :: starts rest
  | _ :: rest => starts rest
  end.

(** Successive times are at least [gap] apart. *)
Fixpoint spaced (gap : Q) (times : list Q) : Prop :=
  match times with
  | a :: (b :: _) as rest => a + gap <= b /\ spaced gap rest
  | _ => True
  end.

(** Jitter of at most a quarter around [delay], then the cap and the floor,
    on rationals: what [_calculate_delay] makes of a finite value it starts
    from, as long as no step leaves the range of a float. *)
Definition jitter_and_clamp (self : RateLimiter) (delay u : Q) : Q :=
  py_max (py_min (delay + delay * (1 # 4) * u) (max_delay self)) (1 # 10).

End Executor.

Arguments Success {Res Exc} result.
Arguments Failure {Res Exc} e.
Arguments mkEnv {Res Exc} script op_time rng.
Arguments script {Res Exc} e n.
Arguments op_time {Res Exc} e n.
Arguments rng {Res Exc} e n.
Arguments random_random {Res Exc} env w.
Arguments invoke {Res Exc} env w.
Arguments _calculate_delay {Res Exc} env self attempt error_message w.
Arguments _is_rate_limit_error {Exc} exc_str self error.
Arguments LogRecovered {Exc} attempt.
Arguments LogNonRateLimit {Exc} e.
Arguments LogExhausted {Exc} retries e.
Arguments LogRetry {Exc} number total delay e.
Arguments EvSleep {Exc} d.
Arguments EvInvoke {Exc} started.
Arguments EvLog {Exc} l.
Arguments Returned {Res Exc} result.
Arguments Raised {Res Exc} e.
Arguments RaisedTypeError {Res Exc}.
Arguments RaisedInHandler {Res Exc} site x.
Arguments Finished {Res Exc} c.
Arguments FellThrough {Res Exc} last_exception.
Arguments pace {Exc} self w.
Arguments attempts_loop {Res Exc} exc_str env attempts last_exception self w.
Arguments call_with_retry {Res Exc} exc_str env self w.
Arguments starts {Exc} events.

(** ** Notions used to state the properties *)

(** The current time in milliseconds, as [_extract_retry_after] reads it. *)
Definition now_ms (w : World) : Z := PyInt.int_of_float (time_time w * 1000).

(** The jitter factor [random.random() * 2 - 1] of the next draw. *)
Definition next_jitter {Res Exc : Type} (env : Env Res Exc) (w : World) : Q :=
  rng env (drawn w) * 2 - 1.

(** The run ends on an invocation: nothing but log records follows the
    last invocation, in particular no wait. *)
Definition ends_on_invocation {Exc : Type} (events : list (Event Exc))
  : Prop :=
  exists before started logs,
    events = before ++ EvInvoke started :: map EvLog logs.

(** No character of [s] is a quote. *)
Fixpoint unquoted (s : string) : bool :=
  match s with
  | EmptyString => true
  | String c s' => negb (PyStr.is_quote c) && unquoted s'
  end.

(** Every character of [s] is white space for [re]. *)
Fixpoint blank (s : string) : bool :=
  match s with
  | EmptyString => true
  | String c s' => PyStr.isspace c && blank s'
  end.

(** Every character of [s] is a decimal digit. *)
Fixpoint numeral (s : string) : bool :=
  match s with
  | EmptyString => true
  | String c s' => PyStr.is_digit c && numeral s'
  end.

(** The number a numeral denotes, most significant digit first, on top of
    the value [acc] of the digits before it. *)
Fixpoint numeral_value (s : string) (acc : Z) : Z :=
  match s with
  | EmptyString => acc
  | String c s' => numeral_value s' (10 * acc + PyStr.digit_value c)%Z
  end.

(** The header name does not begin at any position of [before], in the
    message [before ++ rest]. *)
Fixpoint header_free (before rest : string) : bool :=
  match before with
  | EmptyString => true
  | String _ before' =>
      negb (PyStr.startswith "X-RateLimit-Reset" (before ++ rest))
      && header_free before' rest
  end.

(** The hint in the form the specification writes it:
    the header name, a colon, a blank and the quoted timestamp. *)
Definition hint_without_quoted_name (timestamp : string) : string :=
  ("X-RateLimit-Reset: " ++ String PyStr.dquote timestamp
   ++ String PyStr.dquote EmptyString)%string.

(** The hint in the form the pattern matches: the header name closed by a
    quote, a colon, optional blanks and the quoted timestamp. *)
Definition hint_with_quoted_name (q1 : ascii) (blanks : string) (q2 : ascii)
  (timestamp : string) (q3 : ascii) : string :=
  ("X-RateLimit-Reset" ++ String q1 (":" ++ blanks
   ++ String q2 (timestamp ++ String q3 EmptyString)))%string.

(** The server hint takes precedence for every message that holds a hint
    written as [X-RateLimit-Reset: Q T Q], with [T] in the future. *)
Definition hint_precedence_as_stated : Prop :=
  forall (Res Exc : Type) (env : Env Res Exc) (self : RateLimiter)
         (attempt : Z) (before timestamp after : string) (w : World),
    numeral timestamp = true -> timestamp <> EmptyString ->
    (numeral_value timestamp 0 > now_ms w)%Z ->
    exists d,
      fst (_calculate_delay env self attempt
             (before ++ hint_without_quoted_name timestamp ++ after) w)
      = Value (PyFloat.Fin d)
      /\ d == jitter_and_clamp self
                (inject_Z (numeral_value timestamp 0 - now_ms w) / 1000)
                (next_jitter env w).

(** Without a server hint the delay lies between the floor and
    [max_delay], for every policy with [0 < base_delay <= max_delay]. *)
Definition delay_bounds_as_stated : Prop :=
  forall (Res Exc : Type) (env : Env Res Exc) (self : RateLimiter)
         (attempt : Z) (error_message : string) (w : World),
    (0 <= attempt)%Z ->
    -1 <= next_jitter env w <= 1 ->
    0 < base_delay self <= max_delay self ->
    _extract_retry_after error_message w = Value None ->
    exists d,
      fst (_calculate_delay env self attempt error_message w)
      = Value (PyFloat.Fin d)
      /\ (1 # 10) <= d <= max_delay self.

(** What [base_delay * (2 ** attempt)] evaluates to. *)
Definition exponential_start (self : RateLimiter) (attempt : Z)
  : Raises PyFloat.Float :=
  if (0 <=? attempt)%Z then
    match PyFloat.of_int (2 ^ attempt) with
    | Some power =>
        Value (PyFloat.mul (PyFloat.Fin (base_delay self))
                 (PyFloat.Fin power))
    | None => Error OverflowError
    end
  else
    Value (PyFloat.mul (PyFloat.Fin (base_delay self))
             (PyFloat.Fin (PyFloat.pow2_negative attempt))).

(** The jitter for the draw [r], the cap and the floor, on floats. *)
Definition jitter_and_clamp_float (self : RateLimiter)
  (delay : PyFloat.Float) (r : Q) : PyFloat.Float :=
  PyFloat.fmax
    (PyFloat.fmin
       (PyFloat.add delay
          (PyFloat.mul (PyFloat.mul delay (PyFloat.Fin (1 # 4)))
             (PyFloat.sub (PyFloat.mul (PyFloat.Fin r) (PyFloat.Fin 2))
                (PyFloat.Fin 1))))
       (PyFloat.Fin (max_delay self)))
    (PyFloat.Fin (1 # 10)).

(** The delay computed from the exponential formula alone, as for a
    message that carries no hint. *)
Definition delay_without_hint {Res Exc : Type} (env : Env Res Exc)
  (self : RateLimiter) (attempt : Z) (w : World)
  : Raises PyFloat.Float * World :=
  match exponential_start self attempt with
  | Error x => (Error x, w)
  | Value delay =>
      (Value (jitter_and_clamp_float self delay (rng env (drawn w))),
       snd (random_random env w))
  end.

(** The backoff and its jitter are within the range of a float: the
    attempt index converts and five quarters of [base_delay * 2^attempt]
    stay below the limit. *)
Definition backoff_in_range (self : RateLimiter) (attempt : Z) : Prop :=
  (0 <= attempt < 1024)%Z
  /\ (5 # 4) * (base_delay self * inject_Z (2 ^ attempt)) < PyFloat.limit.

(** The preparation of a retry stays within the range of the built-in
    operations: the draws of [random.random] are in its range, the backoff
    of every attempt that can be retried stays within the range of a
    float, the longest delay is one that [time.sleep] accepts, and no error
    of the callable carries a reset time beyond the range of a float. *)
Definition handler_is_safe {Res Exc : Type} (exc_str : Exc -> string)
  (env : Env Res Exc) (self : RateLimiter) : Prop :=
  (forall n, 0 <= rng env n <= 1)
  /\ 0 <= base_delay self
  /\ (forall attempt, (0 <= attempt < max_retries self)%Z ->
                      backoff_in_range self attempt)
  /\ py_max (max_delay self) (1 # 10) * inject_Z (10 ^ 9) < inject_Z (2 ^ 63)
  /\ (forall n e w x, script env n = Failure e ->
                      _extract_retry_after (exc_str e) w <> Error x).

(** The pacing discipline, read off a trace.  The trace is replayed from
    the time [last] of the last request, the clock [now] and the number [n]
    of invocations made, and ends in [last'], [now'] and [n'].  An
    invocation starts at the current time, which is at least a fifth of a
    second after the last request; a wait that does not follow the
    announcement of a retry is a pacing wait: it occurs only when less than
    the interval has gone by, lasts exactly what is missing, and an
    invocation follows it at once.  [announced] tells that the event before
    was a retry warning and [waited] that it was a pacing wait. *)
Fixpoint paced_trace {Res Exc : Type} (env : Env Res Exc)
  (events : list (Event Exc)) (announced waited : bool)
  (last now : Q) (n : nat) (last' now' : Q) (n' : nat) : Prop :=
  match events with
  | [] => waited = false /\ last' = last /\ now' = now /\ n' = n
  | EvLog (LogRetry _ _ _ _) :: rest =>
      waited = false
      /\ paced_trace env rest true false last now n last' now' n'
  | EvLog _ :: rest =>
      waited = false
      /\ paced_trace env rest false false last now n last' now' n'
  | EvSleep d :: rest =>
      waited = false
      /\ if announced
         then paced_trace env rest false false last (now + d) n last' now' n'
         else now - last < (1 # 5)
              /\ d = (1 # 5) - (now - last)
              /\ paced_trace env rest false true last (now + d) n
                   last' now' n'
  | EvInvoke started :: rest =>
      started = now
      /\ last + (1 # 5) <= now
      /\ paced_trace env rest false false now (now + op_time env n) (S n)
           last' now' n'
  end.

(** ** Observations on the events of a run *)

(** The durations of the blocking waits, in order. *)
Fixpoint sleeps {Exc : Type} (events : list (Event Exc)) : list Q :=
  match events with
  | [] => []
  | EvSleep d :: rest => d :: sleeps rest
  | _ :: rest => sleeps rest
  end.

(** The log records, in order. *)
Fixpoint logs {Exc : Type} (events : list (Event Exc))
  : list (LogRecord Exc) :=
  match events with
  | [] => []
  | EvLog l :: rest => l :: logs rest
  | _ :: rest => logs rest
  end.

(** The retries a run announced: number, allowed attempts, shown delay and
    error of each warning record. *)
Fixpoint retries {Exc : Type} (events : list (Event Exc))
  : list (Z * Z * PyFloat.Formatted * Exc) :=
  match events with
  | [] => []
  | EvLog (LogRetry number total delay e) :: rest =>
      (number, total, delay, e) :: retries rest
  | _ :: rest => retries rest
  end.

Definition retry_record {Exc : Type} (r : Z * Z * PyFloat.Formatted * Exc)
  : LogRecord Exc :=
  LogRetry (fst (fst (fst r))) (snd (fst (fst r))) (snd (fst r)) (snd r).

(** The waits that come right after a retry was announced: the backoff
    waits, as opposed to the pacing waits.  [announced] tells whether the
    event before was a retry record. *)
Fixpoint backoffs {Exc : Type} (announced : bool) (events : list (Event Exc))
  : list Q :=
  match events with
  | [] => []
  | EvSleep d :: rest =>
      if announced then d :: backoffs false rest else backoffs false rest
  | EvLog (LogRetry _ _ _ _) :: rest => backoffs true rest
  | _ :: rest => backoffs false rest
  end.

Fixpoint Qsum (l : list Q) : Q :=
  match l with
  | [] => 0
  | x :: rest => x + Qsum rest
  end.

(** The number of retries a run of [n] invocations announced when it
    ended in [c]: one for each invocation but the last, and one for the
    last as well when the wait that follows the announcement raised. *)
Definition announced {Res Exc : Type} (c : Completion Res Exc) (n : nat)
  : nat :=
  match c with
  | RaisedInHandler InSleep _ => n
  | _ => pred n
  end.

(** The log record that closes a run of the loop left from its body at
    attempt [attempt]: none for a success at the first attempt, and none
    when a built-in operation raised in the handler. *)
Definition closing_log {Res Exc : Type} (exc_str : Exc -> string)
  (self : RateLimiter) (attempt : Z) (c : Completion Res Exc)
  : list (LogRecord Exc) :=
  match c with
  | Returned _ => if (attempt >? 0)%Z then [LogRecovered attempt] else []
  | Raised e =>
      if _is_rate_limit_error exc_str self e
      then [LogExhausted (max_retries self) e]
      else [LogNonRateLimit e]
  | RaisedTypeError => []
  | RaisedInHandler _ _ => []
  end.

(** ** Helpers of [utils/helpers.py] *)

Module Helpers.

Local Open Scope string_scope.
Local Open Scope Z_scope.

(** [len(s)] *)
Definition len (s : string) : Z := Z.of_nat (String.length s).

(** [s[:stop]]: a negative [stop] counts from the end, and both ends are
    clipped to the string. *)
Definition slice_to (s : string) (stop : Z) : string :=
  let stop := if stop <? 0 then Z.max 0 (stop + len s) else stop in
  String.substring 0 (Z.to_nat (Z.min stop (len s))) s.

(** [truncate_text] *)
Definition truncate_text (text : string) (max_length : Z) (suffix : string)
  : string :=
  if len text <=? max_length then text
  else slice_to text (max_length - len suffix) ++ suffix.

(** [validate_api_key], on a [str] argument. *)
Definition validate_api_key (api_key : string) : bool :=
  match api_key with
  | EmptyString => false
  | _ => PyStr.startswith "gsk_" api_key && (len api_key >? 20)
  end.

(** [calculate_token_estimate] *)
Definition calculate_token_estimate (text : string) : Z := len text / 4.

(** [key in state], for a dictionary given by its items. *)
Definition dict_has {V : Type} (state : list (string * V)) (key : string)
  : bool :=
  existsb (fun item => String.eqb key (fst item)) state.

(** [validate_workflow_state] *)
Definition validate_workflow_state {V : Type} (state : list (string * V))
  (required_keys : list string) : bool * list string :=
  let missing_keys :=
    fold_left (fun missing key =>
                 if negb (dict_has state key) then (missing ++ [key])%list
                 else missing)
              required_keys [] in
  (Z.of_nat (List.length missing_keys) =? 0, missing_keys).

End Helpers.

(** ** Sample runs

    Errors are their own messages here, and results are numbers. *)

Definition message_of (e : string) : string := e.

(** A callable that is rate limited for ever. *)
Definition always_limited : Env nat string :=
  mkEnv (fun _ => Failure "rate limit exceeded"%string)
        (fun _ => 0) (fun _ => 1 # 2).

(** Scenario A: rate limited three times, then the answer 7. *)
Definition recovering : Env nat string :=
  mkEnv (fun n => if (n <? 3)%nat
                  then Failure "429 Too Many Requests"%string
                  else Success 7%nat)
        (fun _ => 0) (fun _ => 1 # 2).

(** A callable that fails for a reason of its own. *)
Definition broken : Env nat string :=
  mkEnv (fun _ => Failure "invalid api key"%string)
        (fun _ => 0) (fun _ => 1 # 2).

(** One second after the epoch, nothing invoked or drawn yet. *)
Definition boot : World := mkWorld 1 0 0.

(** A policy whose cap lies under the floor of the delays. *)
Definition tight_policy : RateLimiter := __init__ 3%Z (1 # 20) (1 # 20).

(** Scenario C: one retry, delays capped at two seconds. *)
Definition one_retry : RateLimiter := __init__ 1%Z 1 2.

(** A policy with a negative number of retries. *)
Definition no_attempt : RateLimiter := __init__ (-1)%Z 1 2.

(** A message that carries the reset time 6000 ms the way a rendered
    dictionary of headers does, and one that writes it the way the
    specification does. *)
Definition headers_message : string :=
  "Error 429: {'X-RateLimit-Reset': '6000'}"%string.

Definition plain_message : string := hint_without_quoted_name "6000".


(** A reset time that has gone by one second after the epoch, and a first
    hint that is no number, followed by one that is. *)
Definition stale_message : string :=
  "Error 429: {'X-RateLimit-Reset': '500'}"%string.

Definition garbled_message : string :=
  "{'X-RateLimit-Reset': 'soon'} {'X-RateLimit-Reset': '6000'}"%string.

(** A workflow state with two keys. *)
Definition sample_state : list (string * nat) :=
  [("status"%string, 1%nat); ("timestamp"%string, 2%nat)].

(** A text of [n] zeros. *)
Fixpoint zeros (n : nat) : string :=
  match n with
  | O => EmptyString
  | S n' => String "0" (zeros n')
  end.

(** A rate-limit error whose reset time, 10^400 ms, is beyond what a float
    can hold. *)
Definition giant_hint_message : string :=
  ("429 {'X-RateLimit-Reset': '1" ++ zeros 400 ++ "'}")%string.

(** Rate limited for ever, with that reset time. *)
Definition always_limited_far : Env nat string :=
  mkEnv (fun _ => Failure giant_hint_message) (fun _ => 0) (fun _ => 1 # 2).

(** Rate limited once, with that reset time, then the answer 7. *)
Definition recovering_far : Env nat string :=
  mkEnv (fun n => if (n <? 1)%nat then Failure giant_hint_message
                  else Success 7%nat)
        (fun _ => 0) (fun _ => 1 # 2).

(** A policy whose backoff leaves the range of a float at once. *)
Definition steep_policy : RateLimiter :=
  __init__ 3%Z (inject_Z (2 ^ 1023)) 60.

(** The same callable with a draw that makes the jitter negative. *)
Definition always_limited_low : Env nat string :=
  mkEnv (fun _ => Failure "rate limit exceeded"%string)
        (fun _ => 0) (fun _ => 1 # 4).

(** * Properties *)

(** ** Substring search *)

Section StringFacts.

Local Open Scope string_scope.

Lemma startswith_app (p s : string) : PyStr.startswith p (p ++ s) = true.
Proof.
  induction p as [|a p IH]; simpl.
  - reflexivity.
  - now rewrite Ascii.eqb_refl.
Qed.

Lemma startswith_inv (p s : string) :
  PyStr.startswith p s = true -> exists post, s = p ++ post.
Proof.
  revert s; induction p as [|a p IH]; intros s H.
  - now exists s.
  - destruct s as [|b s]; simpl in H; [discriminate|].
    apply andb_true_iff in H as [Hab Hps].
    apply Ascii.eqb_eq in Hab; subst b.
    destruct (IH _ Hps) as [post ->].
    now exists post.
Qed.

Lemma contains_here (kw s : string) :
  PyStr.startswith kw s = true -> PyStr.contains kw s = true.
Proof.
  intros H; destruct s; simpl in *; rewrite H; reflexivity.
Qed.

Lemma contains_later (kw : string) (c : ascii) (s : string) :
  PyStr.contains kw s = true -> PyStr.contains kw (String c s) = true.
Proof.
  intros H.
  change (PyStr.startswith kw (String c s) || PyStr.contains kw s = true).
  rewrite H; apply orb_true_r.
Qed.

Lemma contains_iff (kw s : string) :
  PyStr.contains kw s = true <-> exists pre post, s = pre ++ kw ++ post.
Proof.
  split.
  - induction s as [|c s IH]; intros H.
    + simpl in H; rewrite orb_false_r in H.
      destruct (startswith_inv _ _ H) as [post Hpost].
      now exists "", post.
    + change (PyStr.startswith kw (String c s) || PyStr.contains kw s = true)
        in H.
      apply orb_true_iff in H as [H|H].
      * destruct (startswith_inv _ _ H) as [post ->].
        now exists "", post.
      * destruct (IH H) as (pre & post & ->).
        now exists (String c pre), post.
  - intros (pre & post & ->).
    induction pre as [|c pre IH].
    + simpl; apply contains_here, startswith_app.
    + simpl; apply contains_later, IH.
Qed.

End StringFacts.

(** ** Failure classification *)

Section Classification.

Context {Exc : Type} (exc_str : Exc -> string).

Lemma is_rate_limit_error_state_free (self self' : RateLimiter) (e : Exc) :
  _is_rate_limit_error exc_str self e = _is_rate_limit_error exc_str self' e.
Proof. reflexivity. Qed.

(** C4.  An error is classified as a rate-limit condition exactly when its
    message, lowercased, contains one of the four keywords as a substring;
    the verdict depends on the text of the message only: two errors with
    the same message get the same verdict whatever the state of the
    executors that classify them. *)
Theorem classification_by_message_text :
  (forall (self : RateLimiter) (e : Exc),
     _is_rate_limit_error exc_str self e = true <->
     exists keyword,
       In keyword ["rate limit"; "429"; "too many requests";
                   "quota exceeded"]%string
       /\ exists pre post,
            PyStr.lower (exc_str e) = (pre ++ keyword ++ post)%string)
  /\ (forall (self self' : RateLimiter) (e e' : Exc),
        exc_str e = exc_str e' ->
        _is_rate_limit_error exc_str self e
        = _is_rate_limit_error exc_str self' e').
Proof.
  split.
  - intros self e; unfold _is_rate_limit_error.
    rewrite existsb_exists; fold keywords.
    split; intros (kw & Hin & H); exists kw; split; trivial;
      now apply contains_iff.
  - intros self self' e e' Heq.
    unfold _is_rate_limit_error; now rewrite Heq.
Qed.

End Classification.

(** ** Floats *)

Section FloatFacts.

Import PyFloat.

Lemma limit_large : 4 < limit.
Proof. unfold limit, Qlt; simpl. reflexivity. Qed.

Lemma round_fin (q : Q) : - limit < q -> q < limit -> round q = Fin q.
Proof.
  intros Hlo Hhi; unfold round.
  destruct (Qlt_le_dec q limit); [|lra].
  destruct (Qlt_le_dec (- limit) q); [reflexivity | lra].
Qed.

Lemma of_int_fits (n : Z) :
  (Z.abs n < int_limit)%Z -> of_int n = Some (inject_Z n).
Proof.
  intros H; unfold of_int.
  apply Z.ltb_lt in H; now rewrite H.
Qed.

Lemma of_int_some (n : Z) (q : Q) :
  of_int n = Some q -> q = inject_Z n /\ (Z.abs n < int_limit)%Z.
Proof.
  unfold of_int.
  destruct (Z.abs n <? int_limit)%Z eqn:E; [|discriminate].
  intros [= <-]; split; [reflexivity | now apply Z.ltb_lt].
Qed.

(** The powers of two up to [2^1023] convert, and no other. *)
Lemma of_int_pow2 (attempt : Z) :
  (0 <= attempt < 1024)%Z ->
  of_int (2 ^ attempt) = Some (inject_Z (2 ^ attempt)).
Proof.
  intros H; apply of_int_fits.
  assert (Hpos : (0 < 2 ^ attempt)%Z) by (apply Z.pow_pos_nonneg; lia).
  rewrite Z.abs_eq by lia.
  apply Z.le_lt_trans with (2 ^ 1023)%Z.
  - apply Z.pow_le_mono_r; lia.
  - reflexivity.
Qed.

Lemma of_int_pow2_overflows (attempt : Z) :
  (1024 <= attempt)%Z -> of_int (2 ^ attempt) = None.
Proof.
  intros H; unfold of_int.
  assert (Hbig : (2 ^ 1024 <= 2 ^ attempt)%Z)
    by (apply Z.pow_le_mono_r; lia).
  assert (Hlim : (int_limit < 2 ^ 1024)%Z) by reflexivity.
  destruct (Z.abs (2 ^ attempt) <? int_limit)%Z eqn:E; [|reflexivity].
  apply Z.ltb_lt in E; lia.
Qed.

Lemma fmin_fin (x y : Q) : fmin (Fin x) (Fin y) = Fin (py_min x y).
Proof. unfold fmin, py_min, lt; now destruct (Qlt_le_dec y x). Qed.

Lemma fmax_fin (x y : Q) : fmax (Fin x) (Fin y) = Fin (py_max x y).
Proof. unfold fmax, py_max, lt; now destruct (Qlt_le_dec x y). Qed.

(** Whatever the value before the cap and the floor, a finite result lies
    between the floor and the larger of the floor and the cap. *)
Lemma clamp_range (x : Float) (M d : Q) :
  fmax (fmin x (Fin M)) (Fin (1 # 10)) = Fin d ->
  (1 # 10) <= d /\ d <= py_max M (1 # 10).
Proof.
  unfold fmax, fmin, py_max.
  destruct x as [q| | | ]; simpl.
  - destruct (Qlt_le_dec M q); simpl;
      match goal with
      | |- context [Qlt_le_dec ?a (1 # 10)] =>
          destruct (Qlt_le_dec a (1 # 10))
      end;
      intros [= <-]; destruct (Qlt_le_dec M (1 # 10)); lra.
  - destruct (Qlt_le_dec M (1 # 10)); intros [= <-]; lra.
  - intros [= <-]; destruct (Qlt_le_dec M (1 # 10)); lra.
  - discriminate.
Qed.

(** [time.sleep] accepts finite durations that are not negative only. *)
Lemma sleep_duration_value (x : Float) (d : Q) :
  sleep_duration x = Value d -> x = Fin d /\ 0 <= d.
Proof.
  destruct x as [q| | | ]; simpl; try discriminate.
  destruct (Qlt_le_dec _ _); [|discriminate].
  destruct (Qlt_le_dec _ _); [discriminate|].
  destruct (Qlt_le_dec q 0); [discriminate|].
  intros [= <-]; now split.
Qed.

Lemma sleep_duration_fits (d : Q) :
  0 <= d -> d * inject_Z (10 ^ 9) < inject_Z (2 ^ 63) ->
  sleep_duration (Fin d) = Value d.
Proof.
  intros Hd Hfits; unfold sleep_duration.
  set (k := inject_Z (10 ^ 9)) in *.
  assert (Hk : 0 < k) by reflexivity.
  assert (Hlim : 0 < inject_Z (2 ^ 63)) by reflexivity.
  destruct (Qlt_le_dec (d * k) (inject_Z (2 ^ 63))); [|lra].
  destruct (Qlt_le_dec (d * k) (- inject_Z (2 ^ 63))); [nra|].
  destruct (Qlt_le_dec d 0); [lra | reflexivity].
Qed.

End FloatFacts.

(** ** Backoff delays *)

Section Backoff.

Context {Res Exc : Type} (env : Env Res Exc).

Import PyFloat.

Lemma py_max_floor (a b : Q) : b <= py_max a b.
Proof. unfold py_max; destruct (Qlt_le_dec a b); lra. Qed.

Lemma py_max_bounded (a b c : Q) : a <= c -> b <= c -> py_max a b <= c.
Proof. unfold py_max; destruct (Qlt_le_dec a b); lra. Qed.

Lemma py_min_capped (a b : Q) : py_min a b <= b.
Proof. unfold py_min; destruct (Qlt_le_dec b a); lra. Qed.

(** With a draw of [random.random] in its range and a start whose five
    quarters are within the range of a float, every step of the jitter, the
    cap and the floor is finite, and is what it is on rationals. *)
Lemma jitter_and_clamp_float_finite (self : RateLimiter) (d r : Q) :
  0 <= d -> (5 # 4) * d < limit -> -1 <= r * 2 - 1 <= 1 ->
  jitter_and_clamp_float self (Fin d) r
  = Fin (jitter_and_clamp self d (r * 2 - 1)).
Proof.
  intros Hd Hrange Hu.
  pose proof limit_large as Hl.
  unfold jitter_and_clamp_float, jitter_and_clamp, sub, opp.
  unfold mul at 3; rewrite round_fin by lra.
  unfold add at 2; rewrite round_fin by lra.
  unfold mul at 2; rewrite round_fin by lra.
  change (r * 2 + - (1)) with (r * 2 - 1).
  set (u := r * 2 - 1) in *.
  unfold mul; rewrite round_fin by nra.
  unfold add; rewrite round_fin by nra.
  now rewrite fmin_fin, fmax_fin.
Qed.

(** The delay is computed from the hint, from the exponential formula, or
    not at all. *)
Lemma calculate_delay_without_hint (self : RateLimiter) (attempt : Z)
  (error_message : string) (w : World) :
  _extract_retry_after error_message w = Value None ->
  _calculate_delay env self attempt error_message w
  = delay_without_hint env self attempt w.
Proof.
  intros H; unfold _calculate_delay, delay_without_hint; rewrite H.
  fold (exponential_start self attempt).
  now destruct (exponential_start self attempt).
Qed.

Lemma calculate_delay_with_hint (self : RateLimiter) (attempt : Z)
  (error_message : string) (w : World) (d : Q) :
  _extract_retry_after error_message w = Value (Some d) -> 0 < d ->
  _calculate_delay env self attempt error_message w
  = (Value (jitter_and_clamp_float self (Fin d) (rng env (drawn w))),
     snd (random_random env w)).
Proof.
  intros H Hd; unfold _calculate_delay; rewrite H.
  cbn [truthy].
  destruct (Qeq_bool d 0) eqn:E; [|reflexivity].
  apply Qeq_bool_eq in E; lra.
Qed.

Lemma calculate_delay_error (self : RateLimiter) (attempt : Z)
  (error_message : string) (w : World) (x : BuiltinError) :
  _extract_retry_after error_message w = Error x ->
  _calculate_delay env self attempt error_message w = (Error x, w).
Proof. intros H; unfold _calculate_delay; now rewrite H. Qed.

(** An extracted delay is the time left, at least a millisecond. *)
Lemma extract_retry_after_positive (error_message : string) (w : World)
  (d : Q) :
  _extract_retry_after error_message w = Value (Some d) -> (1 # 1000) <= d.
Proof.
  unfold _extract_retry_after.
  destruct (Re.search error_message) as [g|]; [|discriminate].
  destruct (PyInt.int g) as [reset|]; [|discriminate].
  destruct (reset >? PyInt.int_of_float (time_time w * 1000))%Z eqn:E;
    [|discriminate].
  destruct (of_int _) as [q|] eqn:Eq; [|discriminate].
  apply of_int_some in Eq as [-> _].
  intros [= <-]; apply Z.gtb_gt in E.
  apply Qle_shift_div_l; [reflexivity|].
  setoid_replace ((1 # 1000) * 1000)%Q with (inject_Z 1) by reflexivity.
  rewrite <- Zle_Qle; lia.
Qed.

(** Every way through [_calculate_delay]: an error before the draw, or the
    jitter, the cap and the floor applied to a start. *)
Lemma calculate_delay_cases (self : RateLimiter) (attempt : Z)
  (error_message : string) (w : World) :
  (exists x, _calculate_delay env self attempt error_message w
             = (Error x, w))
  \/ (exists start,
        _calculate_delay env self attempt error_message w
        = (Value (jitter_and_clamp_float self start (rng env (drawn w))),
           snd (random_random env w))).
Proof.
  destruct (_extract_retry_after error_message w) as [[d|]|x] eqn:H.
  - right; exists (Fin d).
    apply calculate_delay_with_hint; [exact H|].
    pose proof (extract_retry_after_positive _ _ _ H); lra.
  - rewrite (calculate_delay_without_hint _ _ _ _ H).
    unfold delay_without_hint.
    destruct (exponential_start self attempt) as [start|x];
      [right; now exists start | left; now exists x].
  - left; exists x; now apply calculate_delay_error.
Qed.

(** A finite delay is at least the floor, and no more than the larger of
    the floor and the cap. *)
Lemma calculate_delay_range (self : RateLimiter) (attempt : Z)
  (error_message : string) (w : World) (d : Q) :
  fst (_calculate_delay env self attempt error_message w) = Value (Fin d) ->
  (1 # 10) <= d /\ d <= py_max (max_delay self) (1 # 10).
Proof.
  destruct (calculate_delay_cases self attempt error_message w)
    as [[x ->]|[start ->]]; [discriminate|].
  cbn [fst]; intros [= H]; exact (clamp_range _ _ _ H).
Qed.

Lemma calculate_delay_calls (self : RateLimiter) (attempt : Z)
  (error_message : string) (w : World) :
  calls (snd (_calculate_delay env self attempt error_message w)) = calls w
  /\ clock (snd (_calculate_delay env self attempt error_message w))
     = clock w.
Proof.
  destruct (calculate_delay_cases self attempt error_message w)
    as [[x ->]|[start ->]]; split; reflexivity.
Qed.

(** Within the range of a float the exponential formula is what it is on
    rationals. *)
Lemma delay_without_hint_finite (self : RateLimiter) (attempt : Z)
  (w : World) :
  backoff_in_range self attempt -> 0 <= base_delay self ->
  -1 <= next_jitter env w <= 1 ->
  delay_without_hint env self attempt w
  = (Value (Fin (jitter_and_clamp self
                   (base_delay self * inject_Z (2 ^ attempt))
                   (next_jitter env w))),
     snd (random_random env w)).
Proof.
  intros [Hatt Hrange] Hbase Hu; unfold delay_without_hint, exponential_start.
  destruct (0 <=? attempt)%Z eqn:E; [|apply Z.leb_gt in E; lia].
  rewrite (of_int_pow2 _ Hatt).
  assert (Hpow : 0 < inject_Z (2 ^ attempt)).
  { change 0 with (inject_Z 0); rewrite <- Zlt_Qlt.
    apply Z.pow_pos_nonneg; lia. }
  pose proof limit_large as Hl.
  unfold mul; rewrite round_fin by nra.
  rewrite jitter_and_clamp_float_finite; trivial; nra.
Qed.

(** An extracted delay is a number of milliseconds that converted to a
    float. *)
Lemma extract_retry_after_bounded (error_message : string) (w : World)
  (d : Q) :
  _extract_retry_after error_message w = Value (Some d) ->
  (1 # 1000) <= d /\ d * 1000 < limit.
Proof.
  intros H; split; [exact (extract_retry_after_positive _ _ _ H)|].
  revert H; unfold _extract_retry_after.
  destruct (Re.search error_message) as [g|]; [|discriminate].
  destruct (PyInt.int g) as [reset|]; [|discriminate].
  destruct (reset >? PyInt.int_of_float (time_time w * 1000))%Z;
    [|discriminate].
  destruct (of_int _) as [q|] eqn:Eq; [|discriminate].
  apply of_int_some in Eq as [-> Hfits].
  intros [= <-].
  set (n := (reset - PyInt.int_of_float (time_time w * 1000))%Z) in *.
  assert (Hn : inject_Z n < limit).
  { unfold limit; rewrite <- Zlt_Qlt; lia. }
  assert (Hdiv : inject_Z n / 1000 * 1000 == inject_Z n)
    by (field; discriminate).
  lra.
Qed.

(** Where the extraction raises nothing and the backoff is within the
    range of a float, the delay is a finite float that [time.sleep]
    accepts whenever it accepts the longest delay of the policy. *)
Lemma calculate_delay_finite (self : RateLimiter) (attempt : Z)
  (error_message : string) (w : World) :
  (forall x, _extract_retry_after error_message w <> Error x) ->
  backoff_in_range self attempt -> 0 <= base_delay self ->
  0 <= rng env (drawn w) <= 1 ->
  exists d,
    _calculate_delay env self attempt error_message w
    = (Value (Fin d), snd (random_random env w))
    /\ (1 # 10) <= d /\ d <= py_max (max_delay self) (1 # 10).
Proof.
  intros Hno Hrange Hbase Hr.
  assert (Hu : -1 <= next_jitter env w <= 1) by (unfold next_jitter; lra).
  assert (Hfin : exists d,
             _calculate_delay env self attempt error_message w
             = (Value (Fin d), snd (random_random env w))).
  { destruct (_extract_retry_after error_message w) as [[d|]|x] eqn:E.
    - destruct (extract_retry_after_bounded _ _ _ E) as [Hmin Hmax].
      rewrite (calculate_delay_with_hint self attempt _ w d E) by lra.
      rewrite jitter_and_clamp_float_finite; [|lra|lra|exact Hu].
      now eexists.
    - rewrite (calculate_delay_without_hint self attempt _ w E).
      rewrite (delay_without_hint_finite self attempt w Hrange Hbase Hu).
      now eexists.
    - now destruct (Hno x). }
  destruct Hfin as (d & Hd); exists d; split; [exact Hd|].
  apply (calculate_delay_range self attempt error_message w).
  now rewrite Hd.
Qed.

End Backoff.

(** C5, amended.  With no server hint, for every attempt index from zero
    on, every jitter factor in [-1, 1] and every policy with
    [0 < base_delay <= max_delay] whose [max_delay] is at least the floor of
    a tenth of a second, as long as the backoff stays within the range of a
    float (the attempt index is below 1024 and five quarters of
    [base_delay * 2^attempt] are below the overflow limit): the delay is
    [base_delay * 2^attempt] plus a jitter of at most a quarter of it either
    way, capped at [max_delay] and then raised to the floor, and it lies
    between the floor and [max_delay]. *)
Theorem delay_bounds_within_float_range :
  forall (Res Exc : Type) (env : Env Res Exc) (self : RateLimiter)
         (attempt : Z) (error_message : string) (w : World),
    (0 <= attempt)%Z ->
    -1 <= next_jitter env w <= 1 ->
    0 < base_delay self <= max_delay self ->
    (1 # 10) <= max_delay self ->
    backoff_in_range self attempt ->
    _extract_retry_after error_message w = Value None ->
    let backoff := base_delay self * inject_Z (2 ^ attempt) in
    let jitter := backoff * (1 # 4) * next_jitter env w in
    exists delay,
      fst (_calculate_delay env self attempt error_message w)
      = Value (PyFloat.Fin delay)
      /\ delay = py_max (py_min (backoff + jitter) (max_delay self)) (1 # 10)
      /\ - (backoff * (1 # 4)) <= jitter <= backoff * (1 # 4)
      /\ (1 # 10) <= delay <= max_delay self.
Proof.
  intros Res Exc env self attempt msg w Hatt Hu Hpol Hcap Hrange Hhint
         backoff jitter.
  assert (Hpow : 0 < inject_Z (2 ^ attempt)).
  { change 0 with (inject_Z 0); rewrite <- Zlt_Qlt.
    apply Z.pow_pos_nonneg; lia. }
  assert (Hb : 0 <= backoff) by (unfold backoff; nra).
  rewrite (calculate_delay_without_hint env self attempt msg w Hhint).
  rewrite (delay_without_hint_finite env self attempt w Hrange) by lra.
  eexists; split; [reflexivity|].
  split; [reflexivity|].
  split; [unfold jitter; nra|].
  fold backoff; fold jitter.
  split; [apply py_max_floor|].
  apply py_max_bounded; [|exact Hcap].
  apply py_min_capped.
Qed.

(** C5, as stated, fails: with [base_delay = max_delay = 0.05] the delay of
    the first retry is the floor, 0.1, which is above [max_delay]. *)
Lemma delay_bounds_as_stated_fails : ~ delay_bounds_as_stated.
Proof.
  intros H.
  specialize (H nat string always_limited tight_policy 0%Z EmptyString boot).
  assert (Hj : -1 <= next_jitter always_limited boot <= 1)
    by (vm_compute; split; discriminate).
  assert (Hp : 0 < base_delay tight_policy <= max_delay tight_policy)
    by (vm_compute; split; [reflexivity | discriminate]).
  destruct (H ltac:(lia) Hj Hp eq_refl) as (d & Hd & _ & Hhi).
  vm_compute in Hd; injection Hd as <-.
  vm_compute in Hhi; now apply Hhi.
Qed.

(** Beyond the range of a float no delay within the bounds comes out: the
    conversion of [2 ** 1024] raises, and a backoff that overflows to
    infinity turns into nan under a negative jitter. *)
Example delay_beyond_float_range :
  fst (_calculate_delay always_limited default_rate_limiter 1024%Z
         EmptyString boot) = Error OverflowError
  /\ fst (_calculate_delay always_limited_low steep_policy 1%Z
            EmptyString boot) = Value PyFloat.NaN.
Proof. split; vm_compute; reflexivity. Qed.

Lemma delay_bounds_within_float_range_witness :
  exists delay,
    fst (_calculate_delay always_limited default_rate_limiter 2%Z
           EmptyString boot) = Value (PyFloat.Fin delay)
    /\ (1 # 10) <= delay <= 60.
Proof.
  destruct (delay_bounds_within_float_range nat string always_limited
              default_rate_limiter 2%Z EmptyString boot)
    as (delay & Hd & _ & _ & Hb).
  - lia.
  - vm_compute; split; discriminate.
  - vm_compute; split; [reflexivity | discriminate].
  - vm_compute; discriminate.
  - split; [lia | vm_compute; reflexivity].
  - reflexivity.
  - exists delay; split; [exact Hd | exact Hb].
Defined.

(** ** The retry loop *)

Section Loop.

Context {Res Exc : Type} (exc_str : Exc -> string) (env : Env Res Exc).

Lemma py_range_succ (a n : nat) :
  map Z.of_nat (seq a (S n)) = Z.of_nat a :: map Z.of_nat (seq (S a) n).
Proof. reflexivity. Qed.

Lemma last_after_head (A : Type) (a d : A) (l : list A) :
  last (a :: l) d = last l a.
Proof.
  revert a d; induction l as [|b l IH]; intros a d; [reflexivity|].
  change (last (a :: b :: l) d) with (last (b :: l) d).
  now rewrite !IH.
Qed.

Lemma starts_app (l1 l2 : list (Event Exc)) :
  starts (l1 ++ l2) = starts l1 ++ starts l2.
Proof.
  induction l1 as [|[d|t|l] l1 IH]; simpl; trivial.
  now rewrite IH.
Qed.

Lemma pace_props (self self1 : RateLimiter) (w w1 : World)
  (waited : list (Event Exc)) :
  pace self w = (self1, w1, waited) ->
  max_retries self1 = max_retries self
  /\ base_delay self1 = base_delay self
  /\ max_delay self1 = max_delay self
  /\ request_count self1 = (request_count self + 1)%Z
  /\ last_request_time self1 = time_time w1
  /\ calls w1 = calls w
  /\ last_request_time self + (1 # 5) <= last_request_time self1
  /\ starts waited = [].
Proof.
  unfold pace.
  destruct (Qlt_le_dec (time_time w - last_request_time self) (1 # 5));
    intros [= <- <- <-]; unfold time_time in *; simpl;
    repeat split; lra.
Qed.

(** The pacing wait is the part of the interval that is still to run. *)
Lemma pace_wait (self : RateLimiter) (w : World) :
  let elapsed := time_time w - last_request_time self in
  (elapsed < (1 # 5) ->
   snd (pace (Exc:=Exc) self w) = [EvSleep ((1 # 5) - elapsed)]
   /\ snd (fst (pace (Exc:=Exc) self w))
      = time_sleep ((1 # 5) - elapsed) w)
  /\ ((1 # 5) <= elapsed ->
      snd (pace (Exc:=Exc) self w) = []
      /\ snd (fst (pace (Exc:=Exc) self w)) = w).
Proof.
  intros elapsed; unfold pace; fold elapsed.
  destruct (Qlt_le_dec elapsed (1 # 5)); split; intros H; simpl;
    (split; reflexivity) || lra.
Qed.

(** Counting: what a run of the loop does to the counters, whatever the
    list of attempts. *)
(** The world in which the handler of a failed attempt runs. *)
Lemma handler_world (self : RateLimiter) (attempt : Z) (msg : string)
  (w2 : World) (r : Raises PyFloat.Float) (w3 : World) :
  _calculate_delay env self attempt msg w2 = (r, w3) ->
  calls w3 = calls w2 /\ clock w3 = clock w2.
Proof.
  intros H.
  pose proof (calculate_delay_calls env self attempt msg w2) as [Hc Hk].
  rewrite H in Hc, Hk; now split.
Qed.

(** Counting: what a run of the loop does to the counters, whatever the
    list of attempts. *)
Lemma loop_counts (attempts : list Z) :
  forall (le : option Exc) (self : RateLimiter) (w : World)
         (x : LoopExit Res Exc) (self' : RateLimiter) (w' : World)
         (evs : list (Event Exc)),
    attempts_loop exc_str env attempts le self w = (x, self', w', evs) ->
    (calls w <= calls w')%nat
    /\ request_count self'
       = (request_count self + Z.of_nat (calls w' - calls w))%Z
    /\ max_retries self' = max_retries self
    /\ List.length (starts evs) = (calls w' - calls w)%nat
    /\ (calls w' - calls w <= List.length attempts)%nat
    /\ spaced (1 # 5) (last_request_time self :: starts evs)
    /\ last_request_time self' = last (starts evs) (last_request_time self).
Proof.
  induction attempts as [|attempt rest IH]; intros le self w x self' w' evs.
  - simpl; intros [= <- <- <- <-]; simpl.
    rewrite Nat.sub_diag; repeat split; trivial; lia.
  - cbn [attempts_loop].
    destruct (pace self w) as [[self1 w1] waited] eqn:Hp.
    destruct (pace_props _ _ _ _ _ Hp)
      as (Hm & _ & _ & Hc & Ht & Hw & Hgap & Hst).
    unfold invoke.
    assert (Hone : forall tail : list (Event Exc),
              starts tail = [] ->
              (calls w <= S (calls w))%nat
              /\ request_count self1
                 = (request_count self
                    + Z.of_nat (S (calls w) - calls w))%Z
              /\ max_retries self1 = max_retries self
              /\ List.length
                   (starts ((waited ++ [EvInvoke (last_request_time self1)])
                            ++ tail))
                 = (S (calls w) - calls w)%nat
              /\ (S (calls w) - calls w <= List.length (attempt :: rest))%nat
              /\ spaced (1 # 5)
                   (last_request_time self
                    :: starts ((waited
                                ++ [EvInvoke (last_request_time self1)])
                               ++ tail))
              /\ last_request_time self1
                 = last (starts ((waited
                                  ++ [EvInvoke (last_request_time self1)])
                                 ++ tail))
                     (last_request_time self)).
    { intros tail Htail.
      replace (S (calls w) - calls w)%nat with 1%nat by lia.
      rewrite !starts_app, Hst, Htail; simpl.
      repeat split; trivial; lia. }
    destruct (script env (calls w1)) as [r|e].
    + intros [= <- <- <- <-]; cbn [calls]; rewrite Hw.
      apply Hone; now destruct (attempt >? 0)%Z.
    + destruct (negb (_is_rate_limit_error exc_str self1 e));
        [|destruct (attempt =? max_retries self1)%Z].
      1,2: intros [= <- <- <- <-]; cbn [calls]; rewrite Hw;
        now apply Hone.
      destruct (_calculate_delay env self1 attempt (exc_str e) _)
        as [[delay|x0] w3] eqn:Hd;
        destruct (handler_world _ _ _ _ _ _ Hd) as [Hc3 _];
        cbn [calls] in Hc3; rewrite Hw in Hc3.
      2: { intros [= <- <- <- <-]; rewrite Hc3.
           rewrite <- (app_nil_r (waited ++ _)); now apply Hone. }
      destruct (PyFloat.sleep_duration delay) as [d|x0].
      2: { intros [= <- <- <- <-]; rewrite Hc3; now apply Hone. }
      destruct (attempts_loop exc_str env rest (Some e) self1
                  (time_sleep d w3))
        as [[[x1 s1] w4] later] eqn:Hl.
      intros [= <- <- <- <-].
      destruct (IH _ _ _ _ _ _ _ Hl)
        as (Hle & Hrc & Hmr & Hlen & Hbound & Hsp & Hlast).
      cbn [time_sleep calls] in Hle, Hrc, Hlen, Hbound.
      rewrite Hc3 in *.
      rewrite !starts_app, Hst; simpl.
      replace (calls w4 - calls w)%nat
        with (S (calls w4 - S (calls w)))%nat by lia.
      repeat split; try lia; try congruence; trivial.
      rewrite Hlast; symmetry; apply last_after_head.
Qed.

(** A loop that is left from its body is left right after an invocation. *)
Lemma loop_finished_on_invocation (attempts : list Z) :
  forall (le : option Exc) (self : RateLimiter) (w : World)
         (c : Completion Res Exc) (self' : RateLimiter) (w' : World)
         (evs : list (Event Exc)),
    attempts_loop exc_str env attempts le self w
    = (Finished c, self', w', evs) ->
    ends_on_invocation evs.
Proof.
  induction attempts as [|attempt rest IH]; intros le self w c self' w' evs.
  - simpl; discriminate.
  - cbn [attempts_loop].
    destruct (pace self w) as [[self1 w1] waited].
    unfold invoke.
    destruct (script env (calls w1)) as [r|e];
      [|destruct (negb (_is_rate_limit_error exc_str self1 e));
        [|destruct (attempt =? max_retries self1)%Z]].
    + intros [= <- <- <- <-].
      exists waited, (last_request_time self1),
        (if (attempt >? 0)%Z then [LogRecovered attempt] else []).
      rewrite <- app_assoc; simpl.
      now destruct (attempt >? 0)%Z.
    + intros [= <- <- <- <-].
      exists waited, (last_request_time self1), [LogNonRateLimit e].
      now rewrite <- app_assoc.
    + intros [= <- <- <- <-].
      exists waited, (last_request_time self1),
        [LogExhausted (max_retries self1) e].
      now rewrite <- app_assoc.
    + destruct (_calculate_delay env self1 attempt (exc_str e) _)
        as [[delay|x0] w3].
      2: { intros [= <- <- <- <-].
           now exists waited, (last_request_time self1), []. }
      destruct (PyFloat.sleep_duration delay) as [d|x0].
      2: { intros [= <- <- <- <-].
           exists waited, (last_request_time self1),
             [LogRetry (attempt + 1) (max_retries self1 + 1)
                (PyFloat.format_2f delay) e].
           now rewrite <- app_assoc. }
      destruct (attempts_loop exc_str env rest (Some e) self1
                  (time_sleep d w3))
        as [[[x1 s1] w4] later] eqn:Hl.
      intros [= -> <- <- <-].
      destruct (IH _ _ _ _ _ _ _ Hl) as (before & t & logs & ->).
      exists (((waited ++ [EvInvoke (last_request_time self1)])
               ++ [EvLog (LogRetry (attempt + 1) (max_retries self1 + 1)
                            (PyFloat.format_2f delay) e)])
              ++ [EvSleep d] ++ before), t, logs.
      now rewrite <- !app_assoc.
Qed.

(** How a run of the loop ends.  The attempts are [a, a+1, ...] and, unless
    there is none, the last of them is [max_retries].  Every invocation but
    the last raised a rate-limit error, and the last one decides the exit:
    its result, its error when that is fatal or exhausts the retries, or an
    error raised while a retry was being prepared. *)
Lemma loop_exit_shape (n : nat) :
  forall (a : nat) (le : option Exc) (self : RateLimiter) (w : World)
         (x : LoopExit Res Exc) (self' : RateLimiter) (w' : World)
         (evs : list (Event Exc)),
    n = 0%nat \/ Z.of_nat (a + n) = (max_retries self + 1)%Z ->
    attempts_loop exc_str env (map Z.of_nat (seq a n)) le self w
    = (x, self', w', evs) ->
    (forall j, (calls w <= j)%nat -> (S j < calls w')%nat ->
       exists e, script env j = Failure e
                 /\ _is_rate_limit_error exc_str self e = true)
    /\ match x with
       | Finished (Returned r) =>
           (calls w < calls w')%nat
           /\ script env (pred (calls w')) = Success r
       | Finished (Raised e) =>
           (calls w < calls w')%nat
           /\ script env (pred (calls w')) = Failure e
           /\ (_is_rate_limit_error exc_str self e = false
               \/ (_is_rate_limit_error exc_str self e = true
                   /\ Z.of_nat (a + (calls w' - calls w))
                      = (max_retries self + 1)%Z))
       | Finished RaisedTypeError => False
       | Finished (RaisedInHandler _ _) =>
           (calls w < calls w')%nat
           /\ (exists e, script env (pred (calls w')) = Failure e
                         /\ _is_rate_limit_error exc_str self e = true)
           /\ (Z.of_nat (a + (calls w' - calls w)) <= max_retries self)%Z
       | FellThrough le' =>
           n = 0%nat /\ le' = le /\ w' = w /\ self' = self /\ evs = []
       end.
Proof.
  induction n as [|n IH]; intros a le self w x self' w' evs Hlast.
  - simpl; intros [= <- <- <- <-]; split; [intros; lia | now repeat split].
  - rewrite py_range_succ; cbn [attempts_loop].
    destruct Hlast as [Hlast|Hlast]; [discriminate|].
    destruct (pace self w) as [[self1 w1] waited] eqn:Hp.
    destruct (pace_props _ _ _ _ _ Hp) as (Hm & _ & _ & _ & _ & Hw & _).
    unfold invoke; rewrite Hw, Hm.
    destruct (script env (calls w)) as [r|e] eqn:Hs.
    + intros [= <- <- <- <-]; cbn [calls pred].
      split; [intros; lia | split; [lia | exact Hs]].
    + change (_is_rate_limit_error exc_str self1 e)
        with (_is_rate_limit_error exc_str self e).
      destruct (_is_rate_limit_error exc_str self e) eqn:Hrl; cbn [negb].
      2: { intros [= <- <- <- <-]; cbn [calls pred].
           split; [intros; lia | split; [lia | split; [exact Hs | now left]]]. }
      destruct (Z.of_nat a =? max_retries self)%Z eqn:Hex.
      { intros [= <- <- <- <-]; cbn [calls pred].
        apply Z.eqb_eq in Hex.
        split; [intros; lia | split; [lia | split; [exact Hs | right]]].
        split; [exact Hrl | lia]. }
      apply Z.eqb_neq in Hex.
      assert (Hhere : forall w3 : World, calls w3 = S (calls w) ->
                (forall j, (calls w <= j)%nat -> (S j < calls w3)%nat ->
                   exists e0, script env j = Failure e0
                              /\ _is_rate_limit_error exc_str self e0 = true)
                /\ (calls w < calls w3)%nat
                /\ (exists e0, script env (pred (calls w3)) = Failure e0
                               /\ _is_rate_limit_error exc_str self e0 = true)
                /\ (Z.of_nat (a + (calls w3 - calls w))
                    <= max_retries self)%Z).
      { intros w3 ->; cbn [pred].
        split; [intros; lia|]. split; [lia|].
        split; [now exists e | lia]. }
      destruct (_calculate_delay env self1 (Z.of_nat a) (exc_str e) _)
        as [[delay|x0] w3] eqn:Hd;
        destruct (handler_world _ _ _ _ _ _ Hd) as [Hc3 _];
        cbn [calls] in Hc3.
      2: { intros [= <- <- <- <-]; now apply Hhere. }
      destruct (PyFloat.sleep_duration delay) as [d|x0].
      2: { intros [= <- <- <- <-]; now apply Hhere. }
      destruct (attempts_loop exc_str env (map Z.of_nat (seq (S a) n))
                  (Some e) self1 (time_sleep d w3))
        as [[[x1 s1] w4] later] eqn:Hl.
      intros [= <- <- <- <-].
      assert (Hlast' : n = 0%nat
                       \/ Z.of_nat (S a + n) = (max_retries self1 + 1)%Z)
        by (right; rewrite Hm; lia).
      destruct (loop_counts _ _ _ _ _ _ _ _ Hl) as (Hle & _).
      destruct (IH _ _ _ _ _ _ _ _ Hlast' Hl) as [Hbefore Hexit].
      cbn [time_sleep calls] in Hbefore, Hexit, Hle.
      rewrite Hc3 in Hbefore, Hexit, Hle.
      split.
      * intros j Hj1 Hj2.
        destruct (Nat.eq_dec j (calls w)) as [->|Hne].
        -- now exists e.
        -- apply Hbefore; lia.
      * destruct x1 as [[r|e'| |site x0]|le']; trivial.
        -- destruct Hexit as [Hlt Hr]; split; [lia | exact Hr].
        -- destruct Hexit as (Hlt & Hr & Hwhy).
           split; [lia | split; [exact Hr|]].
           rewrite Hm in Hwhy.
           destruct Hwhy as [Hf|[Ht Hk]]; [now left | right].
           split; [exact Ht | lia].
        -- destruct Hexit as (Hlt & Hr & Hk).
           split; [lia | split; [exact Hr|]].
           rewrite Hm in Hk; lia.
        -- destruct Hexit as (Hn & _); subst n; lia.
Qed.

(** The loop of [call_with_retry] is the one [loop_exit_shape] speaks of. *)
Lemma py_range_attempts (self : RateLimiter) :
  let n := Z.to_nat (max_retries self + 1) in
  py_range (max_retries self + 1) = map Z.of_nat (seq 0 n)
  /\ (n = 0%nat \/ Z.of_nat (0 + n) = (max_retries self + 1)%Z).
Proof.
  intros n; split; [reflexivity|].
  destruct (Z_le_gt_dec (max_retries self + 1) 0) as [H|H].
  - left; unfold n.
    destruct (max_retries self + 1)%Z; try reflexivity; lia.
  - right; unfold n; lia.
Qed.

(** Under [handler_is_safe] no run of the loop ends by an error of a
    built-in operation. *)
Lemma loop_safe (n : nat) :
  forall (a : nat) (le : option Exc) (self : RateLimiter) (w : World)
         (x : LoopExit Res Exc) (self' : RateLimiter) (w' : World)
         (evs : list (Event Exc)),
    handler_is_safe exc_str env self ->
    n = 0%nat \/ Z.of_nat (a + n) = (max_retries self + 1)%Z ->
    attempts_loop exc_str env (map Z.of_nat (seq a n)) le self w
    = (x, self', w', evs) ->
    forall site err, x <> Finished (RaisedInHandler site err).
Proof.
  induction n as [|n IH]; intros a le self w x self' w' evs Hsafe Hlast.
  - simpl; intros [= <- <- <- <-]; discriminate.
  - rewrite py_range_succ; cbn [attempts_loop].
    destruct Hlast as [Hlast|Hlast]; [discriminate|].
    destruct (pace self w) as [[self1 w1] waited] eqn:Hp.
    destruct (pace_props _ _ _ _ _ Hp) as (Hm & Hb & Hd & _).
    assert (Hsafe1 : handler_is_safe exc_str env self1).
    { unfold handler_is_safe, backoff_in_range in *.
      rewrite Hm, Hb, Hd; exact Hsafe. }
    destruct Hsafe1 as (Hrng & Hbase & Hrange & Hsleep & Hhint).
    unfold invoke.
    destruct (script env (calls w1)) as [r|e] eqn:Hs;
      [intros [= <- <- <- <-]; discriminate|].
    destruct (negb (_is_rate_limit_error exc_str self1 e));
      [intros [= <- <- <- <-]; discriminate|].
    destruct (Z.of_nat a =? max_retries self1)%Z eqn:Hex;
      [intros [= <- <- <- <-]; discriminate|].
    apply Z.eqb_neq in Hex.
    assert (Hatt : (0 <= Z.of_nat a < max_retries self1)%Z) by lia.
    destruct (calculate_delay_finite env self1 (Z.of_nat a) (exc_str e)
                (mkWorld (clock w1 + op_time env (calls w1))
                   (S (calls w1)) (drawn w1)))
      as (d & Hcd & Hlo & Hhi);
      [intros x0; exact (Hhint _ _ _ x0 Hs) | exact (Hrange _ Hatt)
      | exact Hbase | apply Hrng |].
    rewrite Hcd.
    assert (Hfits : d * inject_Z (10 ^ 9) < inject_Z (2 ^ 63)).
    { assert (Hk : 0 < inject_Z (10 ^ 9)) by reflexivity.
      set (k := inject_Z (10 ^ 9)) in *; nra. }
    rewrite (sleep_duration_fits d) by (trivial; lra).
    destruct (attempts_loop exc_str env (map Z.of_nat (seq (S a) n))
                (Some e) self1 _) as [[[x1 s1] w4] later] eqn:Hl.
    intros [= <- <- <- <-].
    assert (Hlast' : n = 0%nat
                     \/ Z.of_nat (S a + n) = (max_retries self1 + 1)%Z)
      by (right; lia).
    exact (IH _ _ _ _ _ _ _ _
             (conj Hrng (conj Hbase (conj Hrange (conj Hsleep Hhint))))
             Hlast' Hl).
Qed.

End Loop.

(** ** The contract of [call_with_retry] *)

Section Contract.

Context {Res Exc : Type} (exc_str : Exc -> string) (env : Env Res Exc).

(** The loop of a call, and how the call ends, in one statement. *)
Lemma call_shape (self : RateLimiter) (w : World) :
  forall (c : Completion Res Exc) (self' : RateLimiter) (w' : World)
         (evs : list (Event Exc)),
    call_with_retry exc_str env self w = (c, self', w', evs) ->
    (forall j, (calls w <= j)%nat -> (S j < calls w')%nat ->
       exists e, script env j = Failure e
                 /\ _is_rate_limit_error exc_str self e = true)
    /\ match c with
       | Returned r =>
           (calls w < calls w')%nat
           /\ script env (pred (calls w')) = Success r
       | Raised e =>
           (calls w < calls w')%nat
           /\ script env (pred (calls w')) = Failure e
           /\ (_is_rate_limit_error exc_str self e = false
               \/ (_is_rate_limit_error exc_str self e = true
                   /\ Z.of_nat (invocations w w')
                      = (max_retries self + 1)%Z))
       | RaisedTypeError =>
           (max_retries self < 0)%Z /\ w' = w /\ self' = self /\ evs = []
       | RaisedInHandler _ _ =>
           (calls w < calls w')%nat
           /\ (exists e, script env (pred (calls w')) = Failure e
                         /\ _is_rate_limit_error exc_str self e = true)
           /\ (Z.of_nat (invocations w w') <= max_retries self)%Z
       end
    /\ (attempts_loop exc_str env (py_range (max_retries self + 1)) None
          self w = (Finished c, self', w', evs)
        \/ (max_retries self < 0)%Z
           /\ attempts_loop exc_str env (py_range (max_retries self + 1))
                None self w = (FellThrough None, self', w', evs)).
Proof.
  intros c self' w' evs; unfold call_with_retry.
  destruct (py_range_attempts self) as [Hrange Hlast].
  destruct (attempts_loop exc_str env _ None self w)
    as [[[x s1] w1] evs1] eqn:Hl.
  rewrite Hrange in Hl.
  destruct (loop_exit_shape exc_str env _ _ _ _ _ _ _ _ _ Hlast Hl)
    as [Hbefore Hexit].
  destruct x as [c1|le'].
  - intros [= <- <- <- <-]; split; [exact Hbefore|].
    split; [|now left].
    destruct c1 as [r|e| |site x]; trivial; contradiction.
  - destruct Hexit as (Hn & -> & -> & -> & ->).
    intros [= <- <- <- <-]; split; [exact Hbefore|].
    assert (Hneg : (max_retries self < 0)%Z) by lia.
    split; [now repeat split | right; now split].
Qed.

(** With [max_retries = k >= 0] and a callable that raises a rate-limit
    error at every invocation, a call either raises the error of its
    invocation number [k + 1], or is cut short by an error raised while a
    retry was being prepared. *)
Lemma always_limited_call_shape :
  forall (self : RateLimiter) (w : World) (k : Z),
    max_retries self = k -> (0 <= k)%Z ->
    (forall n, exists e, script env n = Failure e
                         /\ _is_rate_limit_error exc_str self e = true) ->
    exists c self' w' evs,
      call_with_retry exc_str env self w = (c, self', w', evs)
      /\ ((exists e, c = Raised e
                     /\ Z.of_nat (invocations w w') = (k + 1)%Z
                     /\ script env (pred (calls w')) = Failure e)
          \/ (exists site x, c = RaisedInHandler site x
                             /\ (Z.of_nat (invocations w w') <= k)%Z)).
Proof.
  intros self w k Hk Hpos Hall.
  destruct (call_with_retry exc_str env self w) as [[[c self'] w'] evs] eqn:Hc.
  destruct (call_shape _ _ _ _ _ _ Hc) as (_ & Hexit & _).
  destruct (Hall (pred (calls w'))) as (e0 & Hs0 & Hrl0).
  exists c, self', w', evs; split; [reflexivity|].
  destruct c as [r|e| |site x].
  - destruct Hexit as [_ Hr]; congruence.
  - destruct Hexit as (_ & Hr & Hwhy).
    assert (e0 = e) by congruence; subst e0.
    destruct Hwhy as [Hf|[_ Hn]]; [congruence|].
    left; exists e; repeat split; trivial; lia.
  - lia.
  - right; exists site, x; split; [reflexivity|].
    destruct Hexit as (_ & _ & Hle); lia.
Qed.

(** Under [handler_is_safe] no call ends by an error of a built-in
    operation. *)
Lemma call_is_safe (self : RateLimiter) (w : World) :
  forall (c : Completion Res Exc) (self' : RateLimiter) (w' : World)
         (evs : list (Event Exc)),
    handler_is_safe exc_str env self ->
    call_with_retry exc_str env self w = (c, self', w', evs) ->
    forall site x, c <> RaisedInHandler site x.
Proof.
  intros c self' w' evs Hsafe Hc site x ->.
  destruct (py_range_attempts self) as [Hrange Hlast].
  destruct (call_shape _ _ _ _ _ _ Hc) as (_ & _ & [Hl|[_ Hl]]);
    rewrite Hrange in Hl.
  - exact (loop_safe exc_str env _ _ _ _ _ _ _ _ _ Hsafe Hlast Hl site x
             eq_refl).
  - destruct (loop_exit_shape exc_str env _ _ _ _ _ _ _ _ _ Hlast Hl)
      as [_ Hexit].
    unfold call_with_retry in Hc; rewrite Hrange, Hl in Hc; discriminate Hc.
Qed.

(** Where the preparation of a retry raises nothing, a callable that is
    rate limited at every invocation is invoked [max_retries + 1] times and
    its last error is raised. *)
Lemma always_limited_invoked_k_plus_one_times :
  forall (self : RateLimiter) (w : World) (k : Z),
    handler_is_safe exc_str env self ->
    max_retries self = k -> (0 <= k)%Z ->
    (forall n, exists e, script env n = Failure e
                         /\ _is_rate_limit_error exc_str self e = true) ->
    exists e self' w' evs,
      call_with_retry exc_str env self w = (Raised e, self', w', evs)
      /\ Z.of_nat (invocations w w') = (k + 1)%Z
      /\ script env (pred (calls w')) = Failure e.
Proof.
  intros self w k Hsafe Hk Hpos Hall.
  destruct (always_limited_call_shape self w k Hk Hpos Hall)
    as (c & self' & w' & evs & Hc & [(e & -> & Hn & Hs)|(site & x & -> & _)]).
  - now exists e, self', w', evs.
  - now destruct (call_is_safe _ _ _ _ _ _ Hsafe Hc site x).
Qed.

(** C2.  The code departs from the claim: with [max_retries = 1] and a
    callable that raises, at every invocation, a rate-limit error whose
    reset time is beyond the range of a float, [call_with_retry] invokes
    the callable once, not twice, and raises the [OverflowError] of the
    delay computation instead of the error of the callable.  The same
    error is raised at attempt 1024 by the exponential formula. *)
Theorem rate_limited_call_dies_computing_the_delay :
  max_retries one_retry = 1%Z
  /\ (forall n, script always_limited_far n = Failure giant_hint_message)
  /\ _is_rate_limit_error message_of one_retry giant_hint_message = true
  /\ (exists self' w' evs,
        call_with_retry message_of always_limited_far one_retry boot
        = (RaisedInHandler InCalculateDelay OverflowError, self', w', evs)
        /\ invocations boot w' = 1%nat)
  /\ _calculate_delay always_limited default_rate_limiter 1024%Z
       EmptyString boot = (Error OverflowError, boot).
Proof.
  split; [reflexivity|].
  split; [reflexivity|].
  split; [vm_compute; reflexivity|].
  split; [|vm_compute; reflexivity].
  eexists _, _, _; split; vm_compute; reflexivity.
Qed.

(** C3.  When the first invocation raises an error that is not classified
    as a rate-limit condition, [call_with_retry] invokes the callable once
    and raises that very error, whatever [max_retries >= 0] allows. *)
Theorem fatal_error_fails_fast :
  forall (self : RateLimiter) (w : World) (e : Exc),
    (0 <= max_retries self)%Z ->
    script env (calls w) = Failure e ->
    _is_rate_limit_error exc_str self e = false ->
    exists self' w' evs,
      call_with_retry exc_str env self w = (Raised e, self', w', evs)
      /\ invocations w w' = 1%nat.
Proof.
  intros self w e Hpos Hs Hrl.
  destruct (call_with_retry exc_str env self w) as [[[c self'] w'] evs] eqn:Hc.
  destruct (call_shape _ _ _ _ _ _ Hc) as (Hbefore & Hexit & _).
  assert (Hone : (calls w < calls w')%nat -> calls w' = S (calls w)).
  { intros Hlt.
    destruct (Nat.eq_dec (calls w') (S (calls w))) as [|Hne]; trivial.
    destruct (Hbefore (calls w)) as (e' & Hs' & Hrl'); try lia.
    congruence. }
  destruct c as [r|e'| |site x].
  - destruct Hexit as [Hlt Hr]; rewrite (Hone Hlt) in Hr; simpl in Hr.
    congruence.
  - destruct Hexit as (Hlt & Hr & _).
    pose proof (Hone Hlt) as HN; rewrite HN in Hr; simpl in Hr.
    assert (e' = e) by congruence; subst e'.
    exists self', w', evs; split; trivial.
    unfold invocations; lia.
  - lia.
  - destruct Hexit as (Hlt & (e' & Hr & Hrl') & _).
    rewrite (Hone Hlt) in Hr; simpl in Hr; congruence.
Qed.

(** When the callable succeeds at attempt [i <= max_retries] after
    rate-limit errors at the attempts before it, a call either returns the
    value of that success right after invocation number [i + 1], or is cut
    short by an error raised while one of the retries before it was being
    prepared. *)
Lemma success_call_shape :
  forall (self : RateLimiter) (w : World) (i : nat) (v : Res),
    (Z.of_nat i <= max_retries self)%Z ->
    (forall j, (j < i)%nat ->
       exists e, script env (calls w + j) = Failure e
                 /\ _is_rate_limit_error exc_str self e = true) ->
    script env (calls w + i) = Success v ->
    exists c self' w' evs,
      call_with_retry exc_str env self w = (c, self', w', evs)
      /\ ends_on_invocation evs
      /\ ((c = Returned v /\ invocations w w' = S i)
          \/ (exists site x, c = RaisedInHandler site x
                             /\ (invocations w w' <= i)%nat)).
Proof.
  intros self w i v Hi Hfail Hok.
  destruct (call_with_retry exc_str env self w) as [[[c self'] w'] evs] eqn:Hc.
  destruct (call_shape _ _ _ _ _ _ Hc) as (Hbefore & Hexit & Hloop).
  assert (Hends : ends_on_invocation evs).
  { destruct Hloop as [Hl|[Hneg _]]; [|lia].
    exact (loop_finished_on_invocation exc_str env _ _ _ _ _ _ _ _ Hl). }
  exists c, self', w', evs; split; [reflexivity|]; split; [exact Hends|].
  assert (Hnot_after : (calls w + i < pred (calls w'))%nat -> False).
  { intros Hlt.
    destruct (Hbefore (calls w + i)%nat) as (e' & Hs' & _); try lia.
    congruence. }
  assert (Hat : forall o, (calls w < calls w')%nat ->
                 script env (pred (calls w')) = o ->
                 (pred (calls w') < calls w + i)%nat ->
                 exists e, o = Failure e
                           /\ _is_rate_limit_error exc_str self e = true).
  { intros o Hlt Ho Hearly.
    destruct (Hfail (pred (calls w') - calls w)%nat) as (e' & Hs' & Hrl');
      try lia.
    replace (calls w + (pred (calls w') - calls w))%nat
      with (pred (calls w')) in Hs' by lia.
    exists e'; split; congruence. }
  destruct c as [r|e| |site x].
  - destruct Hexit as [Hlt Hr].
    destruct (lt_eq_lt_dec (pred (calls w')) (calls w + i)) as [[Hl|He]|Hg].
    + destruct (Hat _ Hlt Hr Hl) as (e' & He' & _); discriminate.
    + rewrite He in Hr.
      assert (r = v) by congruence; subst r.
      left; split; [reflexivity | unfold invocations; lia].
    + now destruct (Hnot_after Hg).
  - exfalso.
    destruct Hexit as (Hlt & Hr & Hwhy).
    destruct (lt_eq_lt_dec (pred (calls w')) (calls w + i)) as [[Hl|He]|Hg].
    + destruct (Hat _ Hlt Hr Hl) as (e' & He' & Hrl').
      assert (e' = e) by congruence; subst e'.
      destruct Hwhy as [Hf|[_ Hn]]; [congruence|].
      unfold invocations in Hn; lia.
    + rewrite He in Hr; congruence.
    + exact (Hnot_after Hg).
  - lia.
  - right; exists site, x; split; [reflexivity|].
    destruct Hexit as (Hlt & (e & Hr & _) & _).
    destruct (lt_eq_lt_dec (pred (calls w')) (calls w + i)) as [[Hl|He]|Hg].
    + unfold invocations; lia.
    + rewrite He in Hr; congruence.
    + now destruct (Hnot_after Hg).
Qed.

(** Where the preparation of a retry raises nothing, a success at attempt
    [i <= max_retries] after rate-limit errors ends the call: its value is
    returned after [i + 1] invocations. *)
Lemma success_ends_the_call :
  forall (self : RateLimiter) (w : World) (i : nat) (v : Res),
    handler_is_safe exc_str env self ->
    (Z.of_nat i <= max_retries self)%Z ->
    (forall j, (j < i)%nat ->
       exists e, script env (calls w + j) = Failure e
                 /\ _is_rate_limit_error exc_str self e = true) ->
    script env (calls w + i) = Success v ->
    exists self' w' evs,
      call_with_retry exc_str env self w = (Returned v, self', w', evs)
      /\ invocations w w' = S i
      /\ ends_on_invocation evs.
Proof.
  intros self w i v Hsafe Hi Hfail Hok.
  destruct (success_call_shape self w i v Hi Hfail Hok)
    as (c & self' & w' & evs & Hc & Hends
        & [[-> Hn]|(site & x & -> & _)]).
  - now exists self', w', evs.
  - now destruct (call_is_safe _ _ _ _ _ _ Hsafe Hc site x).
Qed.

(** C6.  The code departs from the claim: the callable fails at attempt 0
    with a rate-limit error whose reset time is beyond the range of a float
    and would succeed at attempt 1, within [max_retries = 3], but
    [call_with_retry] does not return that success: it raises the
    [OverflowError] of the delay computation after one invocation. *)
Theorem success_is_lost_computing_the_delay :
  (1 <= max_retries default_rate_limiter)%Z
  /\ script recovering_far 0 = Failure giant_hint_message
  /\ _is_rate_limit_error message_of default_rate_limiter giant_hint_message
     = true
  /\ script recovering_far 1 = Success 7%nat
  /\ exists self' w' evs,
       call_with_retry message_of recovering_far default_rate_limiter boot
       = (RaisedInHandler InCalculateDelay OverflowError, self', w', evs)
       /\ invocations boot w' = 1%nat.
Proof.
  split; [simpl; lia|].
  split; [reflexivity|].
  split; [vm_compute; reflexivity|].
  split; [reflexivity|].
  eexists _, _, _; split; vm_compute; reflexivity.
Qed.


Lemma call_counts (self : RateLimiter) (w : World) :
  forall (c : Completion Res Exc) (self' : RateLimiter) (w' : World)
         (evs : list (Event Exc)),
    call_with_retry exc_str env self w = (c, self', w', evs) ->
    (calls w <= calls w')%nat
    /\ request_count self'
       = (request_count self + Z.of_nat (invocations w w'))%Z
    /\ List.length (starts evs) = invocations w w'
    /\ spaced (1 # 5) (last_request_time self :: starts evs)
    /\ last_request_time self' = last (starts evs) (last_request_time self).
Proof.
  intros c self' w' evs; unfold call_with_retry.
  destruct (attempts_loop exc_str env _ None self w)
    as [[[x s1] w1] evs1] eqn:Hl.
  destruct (loop_counts exc_str env _ _ _ _ _ _ _ _ Hl)
    as (Hle & Hrc & _ & Hlen & _ & Hsp & Hlast).
  destruct x as [c1|[e|]]; intros [= <- <- <- <-]; now repeat split.
Qed.

Lemma single_attempt (attempt : Z) (le : option Exc) (self : RateLimiter)
  (w : World) :
  forall (x : LoopExit Res Exc) (self' : RateLimiter) (w' : World)
         (evs : list (Event Exc)),
    attempts_loop exc_str env [attempt] le self w = (x, self', w', evs) ->
    invocations w w' = 1%nat
    /\ request_count self' = (request_count self + 1)%Z
    /\ starts evs = [last_request_time self']
    /\ last_request_time self' = time_time (snd (fst (pace (Exc:=Exc) self w))).
Proof.
  intros x self' w' evs Hl.
  destruct (loop_counts exc_str env _ _ _ _ _ _ _ _ Hl)
    as (Hle & Hrc & _ & Hlen & Hbound & _ & Hlast).
  assert (Hs : exists t, starts evs = [t] /\ calls w' = S (calls w)
                         /\ t = time_time (snd (fst (pace (Exc:=Exc) self w)))).
  { revert Hl; cbn [attempts_loop].
    destruct (pace self w) as [[self1 w1] waited] eqn:Hp.
    destruct (pace_props _ _ _ _ _ Hp) as (_ & _ & _ & _ & Ht & Hw & _ & Hst).
    exists (last_request_time self1); cbn [fst snd].
    revert Hl; unfold invoke.
    destruct (script env (calls w1)) as [r|e];
      [|destruct (negb (_is_rate_limit_error exc_str self1 e));
        [|destruct (attempt =? max_retries self1)%Z]].
    4: destruct (_calculate_delay env self1 attempt (exc_str e) _)
         as [[delay|x0] w3] eqn:Hd;
       destruct (handler_world env _ _ _ _ _ _ Hd) as [Hc3 _];
       cbn [calls] in Hc3;
       [destruct (PyFloat.sleep_duration delay) as [d|x0]|].
    all: intros [= <- <- <- <-]; rewrite !starts_app, Hst; cbn [calls].
    1: destruct (attempt >? 0)%Z.
    all: simpl; repeat split; trivial; cbn [time_sleep calls]; congruence. }
  destruct Hs as (t & Hst & Hcalls & Ht).
  rewrite Hst in Hlast; simpl in Hlast.
  unfold invocations; rewrite Hcalls in *.
  replace (S (calls w) - calls w)%nat with 1%nat in * by lia.
  repeat split; trivial; congruence.
Qed.

(** The pacing step, case by case. *)
Lemma pace_cases (self self1 : RateLimiter) (w w1 : World)
  (waited : list (Event Exc)) :
  pace self w = (self1, w1, waited) ->
  last_request_time self1 = clock w1 /\ calls w1 = calls w
  /\ ((clock w - last_request_time self < (1 # 5)
       /\ waited = [EvSleep ((1 # 5) - (clock w - last_request_time self))]
       /\ clock w1
          = clock w + ((1 # 5) - (clock w - last_request_time self)))
      \/ ((1 # 5) <= clock w - last_request_time self
          /\ waited = [] /\ clock w1 = clock w)).
Proof.
  unfold pace, time_time.
  destruct (Qlt_le_dec (clock w - last_request_time self) (1 # 5));
    intros [= <- <- <-]; simpl; split; trivial; split; trivial;
    [left | right]; now repeat split.
Qed.

(** One attempt in a paced trace: the pacing step, the invocation, and
    whatever follows from the state the invocation leaves. *)
Lemma paced_attempt (self self1 : RateLimiter) (w w1 : World)
  (waited tail : list (Event Exc)) (last' now' : Q) (n' : nat) :
  pace self w = (self1, w1, waited) ->
  paced_trace env tail false false (last_request_time self1)
    (clock w1 + op_time env (calls w1)) (S (calls w1)) last' now' n' ->
  paced_trace env ((waited ++ [EvInvoke (last_request_time self1)]) ++ tail)
    false false (last_request_time self) (clock w) (calls w) last' now' n'.
Proof.
  intros Hp Htail.
  destruct (pace_cases _ _ _ _ _ Hp)
    as (Ht & Hc & [(Hlt & -> & Hk)|(Hge & -> & Hk)]);
    rewrite Ht, Hc, Hk in *; cbn [app paced_trace].
  - repeat split; trivial; lra.
  - repeat split; trivial; lra.
Qed.

(** Every run of the loop leaves a paced trace, which ends in the state
    the run ends in. *)
Lemma loop_paced (attempts : list Z) :
  forall (le : option Exc) (self : RateLimiter) (w : World)
         (x : LoopExit Res Exc) (self' : RateLimiter) (w' : World)
         (evs : list (Event Exc)),
    attempts_loop exc_str env attempts le self w = (x, self', w', evs) ->
    paced_trace env evs false false (last_request_time self) (clock w)
      (calls w) (last_request_time self') (clock w') (calls w').
Proof.
  induction attempts as [|attempt rest IH]; intros le self w x self' w' evs.
  - simpl; intros [= <- <- <- <-]; simpl; now repeat split.
  - cbn [attempts_loop].
    destruct (pace self w) as [[self1 w1] waited] eqn:Hp.
    unfold invoke.
    destruct (script env (calls w1)) as [r|e];
      [|destruct (negb (_is_rate_limit_error exc_str self1 e));
        [|destruct (attempt =? max_retries self1)%Z]].
    + intros [= <- <- <- <-].
      apply (paced_attempt _ _ _ _ _ _ _ _ _ Hp).
      destruct (attempt >? 0)%Z; simpl; now repeat split.
    + intros [= <- <- <- <-].
      apply (paced_attempt _ _ _ _ _ _ _ _ _ Hp); simpl; now repeat split.
    + intros [= <- <- <- <-].
      apply (paced_attempt _ _ _ _ _ _ _ _ _ Hp); simpl; now repeat split.
    + destruct (_calculate_delay env self1 attempt (exc_str e) _)
        as [[delay|x0] w3] eqn:Hd;
        destruct (handler_world env _ _ _ _ _ _ Hd) as [Hc3 Hk3];
        cbn [calls clock] in Hc3, Hk3.
      2: { intros [= <- <- <- <-].
           rewrite <- (app_nil_r (waited ++ _)).
           apply (paced_attempt _ _ _ _ _ _ _ _ _ Hp).
           rewrite Hc3, Hk3; simpl; now repeat split. }
      destruct (PyFloat.sleep_duration delay) as [d|x0].
      2: { intros [= <- <- <- <-].
           apply (paced_attempt _ _ _ _ _ _ _ _ _ Hp).
           rewrite Hc3, Hk3; simpl; now repeat split. }
      destruct (attempts_loop exc_str env rest (Some e) self1
                  (time_sleep d w3))
        as [[[x1 s1] w4] later] eqn:Hl.
      intros [= <- <- <- <-].
      rewrite <- app_assoc.
      apply (paced_attempt _ _ _ _ _ _ _ _ _ Hp).
      pose proof (IH _ _ _ _ _ _ _ Hl) as Hrest.
      cbn [time_sleep clock calls] in Hrest; rewrite Hc3, Hk3 in Hrest.
      cbn [app paced_trace]; now repeat split.
Qed.

(** C8.  The trace of every call is paced: each invocation is made at the
    current time, at least 0.2 seconds after the start of the attempt
    before it (for the first attempt of a call, after the
    [last_request_time] the call finds); the executor waits before an
    invocation exactly when less than 0.2 seconds have gone by, for exactly
    the time that is missing, and invokes at once after that wait; the
    clock and [last_request_time] at the end of the call are the ones the
    trace leads to.  With [max_retries >= 0] the call makes at least one
    such attempt.  Hence the starts of successive attempts on one executor
    are at least 0.2 seconds apart. *)
Theorem every_attempt_is_paced :
  forall (self : RateLimiter) (w : World) (c : Completion Res Exc)
         (self' : RateLimiter) (w' : World) (evs : list (Event Exc)),
    call_with_retry exc_str env self w = (c, self', w', evs) ->
    paced_trace env evs false false (last_request_time self) (clock w)
      (calls w) (last_request_time self') (clock w') (calls w')
    /\ ((0 <= max_retries self)%Z -> (calls w < calls w')%nat)
    /\ spaced (1 # 5) (last_request_time self :: starts evs).
Proof.
  intros self w c self' w' evs Hc.
  destruct (call_counts _ _ _ _ _ _ Hc) as (_ & _ & _ & Hsp & _).
  destruct (call_shape _ _ _ _ _ _ Hc) as (_ & Hexit & _).
  split; [|split; [|exact Hsp]].
  - revert Hc; unfold call_with_retry.
    destruct (attempts_loop exc_str env _ None self w)
      as [[[x s1] w1] evs1] eqn:Hl.
    pose proof (loop_paced _ _ _ _ _ _ _ _ Hl) as Hp.
    destruct x as [c1|[e|]]; intros [= <- <- <- <-]; exact Hp.
  - intros Hm.
    destruct c as [r|e| |site x];
      [destruct Hexit as [Hlt _] | destruct Hexit as (Hlt & _)
      | destruct Hexit as (Hneg & _) | destruct Hexit as (Hlt & _)];
      trivial; lia.
Qed.

(** C9.  An attempt adds exactly one to [request_count] and stores its
    start time in [last_request_time], whether the invocation succeeds or
    fails; over a call, [request_count] grows by the number of invocations
    and never goes down. *)
Theorem request_count_counts_attempts :
  (forall (attempt : Z) (le : option Exc) (self : RateLimiter) (w : World)
          (x : LoopExit Res Exc) (self' : RateLimiter) (w' : World)
          (evs : list (Event Exc)),
     attempts_loop exc_str env [attempt] le self w = (x, self', w', evs) ->
     invocations w w' = 1%nat
     /\ request_count self' = (request_count self + 1)%Z
     /\ starts evs = [last_request_time self']
     /\ last_request_time self'
        = time_time (snd (fst (pace (Exc:=Exc) self w))))
  /\ (forall (self : RateLimiter) (w : World) (c : Completion Res Exc)
             (self' : RateLimiter) (w' : World) (evs : list (Event Exc)),
        call_with_retry exc_str env self w = (c, self', w', evs) ->
        request_count self'
        = (request_count self + Z.of_nat (invocations w w'))%Z
        /\ (request_count self <= request_count self')%Z
        /\ List.length (starts evs) = invocations w w').
Proof.
  split.
  - intros attempt le self w; apply single_attempt.
  - intros self w c self' w' evs Hc.
    destruct (call_counts _ _ _ _ _ _ Hc) as (_ & Hrc & Hlen & _).
    repeat split; trivial; lia.
Qed.

(** C10.  With [max_retries >= 0], a call leaves the loop by a [return] or
    a [raise] of its body, never by running out of attempts, so the
    [raise last_exception] after the loop is not reached and nothing is
    raised from a [last_exception] that is still [None].  With
    [max_retries < 0] the body never runs: the loop falls through at once
    with [last_exception = None], the callable is not invoked and the call
    raises from the statement after the loop. *)
Theorem fallback_is_unreachable :
  forall (self : RateLimiter) (w : World),
    ((0 <= max_retries self)%Z ->
     exists c self' w' evs,
       attempts_loop exc_str env (py_range (max_retries self + 1)) None
         self w = (Finished c, self', w', evs)
       /\ c <> RaisedTypeError
       /\ call_with_retry exc_str env self w = (c, self', w', evs))
    /\ ((max_retries self < 0)%Z ->
        attempts_loop exc_str env (py_range (max_retries self + 1)) None
          self w = (FellThrough None, self, w, [])
        /\ call_with_retry exc_str env self w
           = (RaisedTypeError, self, w, [])).
Proof.
  intros self w; split; intros Hm.
  - destruct (call_with_retry exc_str env self w)
      as [[[c self'] w'] evs] eqn:Hc.
    destruct (call_shape _ _ _ _ _ _ Hc) as (_ & Hexit & [Hl|[Hneg _]]);
      [|lia].
    exists c, self', w', evs; repeat split; trivial.
    intros ->; lia.
  - assert (Hr : py_range (max_retries self + 1) = []).
    { unfold py_range.
      destruct (max_retries self + 1)%Z eqn:E; try reflexivity; lia. }
    unfold call_with_retry; rewrite Hr; split; reflexivity.
Qed.

End Contract.

(** A call on an executor whose last request started a tenth of a second
    ago: the call waits for the tenth that is missing, then invokes. *)
Example pacing_wait_on_a_busy_executor :
  exists d t self' w',
    call_with_retry message_of broken default_rate_limiter
      (mkWorld (1 # 10) 0 0)
    = (Raised "invalid api key"%string, self', w',
       [EvSleep d; EvInvoke t; EvLog (LogNonRateLimit "invalid api key"%string)])
    /\ d == 1 # 10 /\ t == 1 # 5 /\ last_request_time self' == 1 # 5.
Proof.
  eexists _, _, _, _; split; [vm_compute; reflexivity|].
  repeat split.
Qed.


(** ** The server hint *)

Section Hint.

Local Open Scope string_scope.

Lemma append_assoc (a b c : string) : (a ++ b) ++ c = a ++ (b ++ c).
Proof. induction a as [|x a IH]; simpl; [reflexivity | now rewrite IH]. Qed.

Lemma strip_prefix_app (p s : string) : PyStr.strip_prefix p (p ++ s) = Some s.
Proof.
  induction p as [|a p IH]; simpl; [reflexivity|].
  now rewrite Ascii.eqb_refl.
Qed.

Lemma strip_prefix_none (p s : string) :
  PyStr.startswith p s = false -> PyStr.strip_prefix p s = None.
Proof.
  revert s; induction p as [|a p IH]; intros [|b s]; simpl;
    try discriminate; trivial.
  destruct (Ascii.eqb a b); simpl; [apply IH | reflexivity].
Qed.

Lemma quote_is_not_space (c : ascii) :
  PyStr.is_quote c = true -> PyStr.isspace c = false.
Proof.
  unfold PyStr.is_quote; intros H.
  apply orb_true_iff in H as [H|H]; apply Ascii.eqb_eq in H; subst c;
    reflexivity.
Qed.

Lemma skip_spaces_blank (blanks : string) (q : ascii) (r : string) :
  blank blanks = true -> PyStr.is_quote q = true ->
  Re.skip_spaces (blanks ++ String q r) = String q r.
Proof.
  intros Hb Hq; induction blanks as [|c blanks IH]; simpl.
  - now rewrite (quote_is_not_space _ Hq).
  - simpl in Hb; apply andb_true_iff in Hb as [Hc Hb].
    rewrite Hc; now apply IH.
Qed.

Lemma span_unquoted_group (g : string) (q : ascii) (r : string) :
  unquoted g = true -> PyStr.is_quote q = true ->
  Re.span_unquoted (g ++ String q r) = (g, String q r).
Proof.
  intros Hg Hq; induction g as [|c g IH]; simpl.
  - now rewrite Hq.
  - simpl in Hg; apply andb_true_iff in Hg as [Hc Hg].
    apply negb_true_iff in Hc; rewrite Hc, (IH Hg); reflexivity.
Qed.

(** The pattern matches a hint at the start of the text, with the quoted
    text as its group. *)
Lemma match_here_hint (q1 : ascii) (blanks : string) (q2 : ascii)
  (g : string) (q3 : ascii) (after : string) :
  PyStr.is_quote q1 = true -> PyStr.is_quote q2 = true ->
  PyStr.is_quote q3 = true -> blank blanks = true ->
  unquoted g = true -> g <> "" ->
  Re.match_here (hint_with_quoted_name q1 blanks q2 g q3 ++ after) = Some g.
Proof.
  intros H1 H2 H3 Hb Hg Hne.
  unfold Re.match_here, hint_with_quoted_name.
  rewrite append_assoc, strip_prefix_app.
  cbn [append]; rewrite H1.
  rewrite !append_assoc; cbn [append].
  rewrite (skip_spaces_blank _ _ _ Hb H2), H2.
  rewrite append_assoc; cbn [append].
  rewrite (span_unquoted_group _ _ _ Hg H3).
  destruct g; [congruence | reflexivity].
Qed.

Lemma search_here (s g : string) :
  Re.match_here s = Some g -> Re.search s = Some g.
Proof. intros H; destruct s; cbn [Re.search]; now rewrite H. Qed.

(** Positions where the header name does not begin are passed over. *)
Lemma search_header_free (before rest : string) :
  header_free before rest = true ->
  Re.search (before ++ rest) = Re.search rest.
Proof.
  induction before as [|c before IH]; intros H; [reflexivity|].
  cbn [header_free] in H; apply andb_true_iff in H as [Hc H].
  apply negb_true_iff in Hc.
  cbn [append] in *; cbn [Re.search].
  unfold Re.match_here at 1; rewrite (strip_prefix_none _ _ Hc).
  now apply IH.
Qed.

Lemma digit_is_not_int_space (c : ascii) :
  PyStr.is_digit c = true -> PyStr.is_int_space c = false.
Proof.
  unfold PyStr.is_digit, PyStr.is_int_space.
  destruct (N_of_ascii c) as [|p] eqn:E; [discriminate|].
  intros H; apply andb_true_iff in H as [H1 H2].
  apply N.leb_le in H1, H2.
  repeat (apply orb_false_iff; split);
    try apply andb_false_iff;
    try (apply N.eqb_neq; lia).
  right; apply N.leb_gt; lia.
Qed.

Lemma digit_is_not_quote (c : ascii) :
  PyStr.is_digit c = true -> PyStr.is_quote c = false.
Proof.
  unfold PyStr.is_digit, PyStr.is_quote; intros H.
  apply andb_true_iff in H as [H1 H2]; apply N.leb_le in H1, H2.
  apply orb_false_iff; split; apply Ascii.eqb_neq; intros ->;
    vm_compute in H1; now apply H1.
Qed.

Lemma numeral_unquoted (s : string) : numeral s = true -> unquoted s = true.
Proof.
  induction s as [|c s IH]; simpl; trivial.
  intros H; apply andb_true_iff in H as [Hc Hs].
  now rewrite (digit_is_not_quote _ Hc), IH.
Qed.

Lemma lstrip_numeral (s : string) : numeral s = true -> PyInt.lstrip s = s.
Proof.
  destruct s as [|c s]; simpl; trivial.
  intros H; apply andb_true_iff in H as [Hc _].
  now rewrite (digit_is_not_int_space _ Hc).
Qed.

Lemma rstrip_numeral (s : string) : numeral s = true -> PyInt.rstrip s = s.
Proof.
  induction s as [|c s IH]; simpl; trivial.
  intros H; apply andb_true_iff in H as [Hc Hs].
  rewrite (IH Hs), (digit_is_not_int_space _ Hc).
  now destruct s.
Qed.

Lemma digits_numeral (s : string) :
  forall (acc : Z) (after_digit : bool),
    numeral s = true -> s <> "" \/ after_digit = true ->
    PyInt.digits s acc after_digit = Some (numeral_value s acc).
Proof.
  induction s as [|c s IH]; intros acc b Hn Hne; simpl.
  - destruct Hne as [Hne| ->]; [congruence | reflexivity].
  - simpl in Hn; apply andb_true_iff in Hn as [Hc Hs].
    rewrite Hc; apply IH; [exact Hs | now right].
Qed.

Lemma digit_count_numeral (s : string) :
  numeral s = true -> PyInt.digit_count s = Z.of_nat (String.length s).
Proof.
  induction s as [|c s IH]; [reflexivity|].
  cbn [numeral PyInt.digit_count String.length].
  intros H; apply andb_true_iff in H as [Hc Hs].
  rewrite Hc, (IH Hs); lia.
Qed.

(** [int] reads a plain numeral of at most 4300 digits as the number it
    denotes. *)
Lemma int_of_numeral (s : string) :
  numeral s = true -> s <> "" -> (String.length s <= 4300)%nat ->
  PyInt.int s = Some (numeral_value s 0).
Proof.
  intros Hn Hne Hlen; unfold PyInt.int.
  rewrite (lstrip_numeral _ Hn), (rstrip_numeral _ Hn).
  rewrite (digit_count_numeral _ Hn).
  destruct (Z.of_nat (String.length s) >? PyInt.max_str_digits)%Z eqn:E;
    [apply Z.gtb_gt in E; unfold PyInt.max_str_digits in E; lia|].
  pose proof (digits_numeral s 0 false Hn (or_introl Hne)) as Hd.
  destruct s as [|c s]; [congruence|].
  simpl in Hn; apply andb_true_iff in Hn as [Hc _].
  destruct c as [[] [] [] [] [] [] [] []]; try discriminate Hc; exact Hd.
Qed.

(** A hint whose header name is the first in the message, with a group
    that [int] reads as a time in the future, gives the time left when the
    time left converts to a float. *)
Lemma extract_retry_after_hint (before : string) (q1 : ascii)
  (blanks : string) (q2 : ascii) (g : string) (q3 : ascii) (after : string)
  (w : World) (reset : Z) :
  header_free before (hint_with_quoted_name q1 blanks q2 g q3 ++ after)
  = true ->
  PyStr.is_quote q1 = true -> PyStr.is_quote q2 = true ->
  PyStr.is_quote q3 = true -> blank blanks = true ->
  unquoted g = true -> PyInt.int g = Some reset ->
  (reset > now_ms w)%Z -> (reset - now_ms w < PyFloat.int_limit)%Z ->
  _extract_retry_after
    (before ++ hint_with_quoted_name q1 blanks q2 g q3 ++ after) w
  = Value (Some (inject_Z (reset - now_ms w) / 1000)%Q).
Proof.
  intros Hfree H1 H2 H3 Hb Hg Hint Hfuture Hfits.
  assert (Hne : g <> "") by (intros ->; discriminate Hint).
  unfold _extract_retry_after.
  rewrite (search_header_free _ _ Hfree).
  rewrite (search_here _ _ (match_here_hint _ _ _ _ _ _ H1 H2 H3 Hb Hg Hne)).
  rewrite Hint; fold (now_ms w).
  rewrite of_int_fits by (rewrite Z.abs_eq; lia).
  apply Z.gtb_gt in Hfuture; now rewrite Hfuture.
Qed.

(** The same hint with a time left beyond the range of a float: the
    conversion raises, and the error is not one that
    [_extract_retry_after] catches. *)
Lemma extract_retry_after_overflow (before : string) (q1 : ascii)
  (blanks : string) (q2 : ascii) (g : string) (q3 : ascii) (after : string)
  (w : World) (reset : Z) :
  header_free before (hint_with_quoted_name q1 blanks q2 g q3 ++ after)
  = true ->
  PyStr.is_quote q1 = true -> PyStr.is_quote q2 = true ->
  PyStr.is_quote q3 = true -> blank blanks = true ->
  unquoted g = true -> PyInt.int g = Some reset ->
  (PyFloat.int_limit <= reset - now_ms w)%Z ->
  _extract_retry_after
    (before ++ hint_with_quoted_name q1 blanks q2 g q3 ++ after) w
  = Error OverflowError.
Proof.
  intros Hfree H1 H2 H3 Hb Hg Hint Hfar.
  assert (Hne : g <> "") by (intros ->; discriminate Hint).
  assert (Hlim : (0 < PyFloat.int_limit)%Z) by reflexivity.
  unfold _extract_retry_after.
  rewrite (search_header_free _ _ Hfree).
  rewrite (search_here _ _ (match_here_hint _ _ _ _ _ _ H1 H2 H3 Hb Hg Hne)).
  rewrite Hint; fold (now_ms w).
  assert (Hgt : (reset >? now_ms w)%Z = true) by (apply Z.gtb_gt; lia).
  rewrite Hgt; unfold PyFloat.of_int.
  assert (Hno : (Z.abs (reset - now_ms w) <? PyFloat.int_limit)%Z = false)
    by (apply Z.ltb_ge; rewrite Z.abs_eq; lia).
  now rewrite Hno.
Qed.

End Hint.

(** C1, amended.  When the first occurrence of the header name in the
    message is followed by a quote, a colon, optional white space and a
    quoted numeral [T] of at most 4300 digits that is greater than the
    current time in milliseconds, by less than the largest integer that
    converts to a float, [_calculate_delay] starts from
    [(T - now_ms) / 1000] seconds instead of [base_delay * 2^attempt]: for
    a jitter factor in [[-1, 1]] its result is that value with the jitter,
    the cap and the floor applied. *)
Theorem quoted_hint_takes_precedence :
  forall (Res Exc : Type) (env : Env Res Exc) (self : RateLimiter)
         (attempt : Z) (before : string) (q1 : ascii) (blanks : string)
         (q2 : ascii) (timestamp : string) (q3 : ascii) (after : string)
         (w : World),
    PyStr.is_quote q1 = true -> PyStr.is_quote q2 = true ->
    PyStr.is_quote q3 = true -> blank blanks = true ->
    header_free before
      (hint_with_quoted_name q1 blanks q2 timestamp q3 ++ after) = true ->
    numeral timestamp = true -> timestamp <> EmptyString ->
    (String.length timestamp <= 4300)%nat ->
    (numeral_value timestamp 0 > now_ms w)%Z ->
    (numeral_value timestamp 0 - now_ms w < PyFloat.int_limit)%Z ->
    -1 <= next_jitter env w <= 1 ->
    fst (_calculate_delay env self attempt
           (before ++ hint_with_quoted_name q1 blanks q2 timestamp q3
            ++ after) w)
    = Value (PyFloat.Fin
               (jitter_and_clamp self
                  (inject_Z (numeral_value timestamp 0 - now_ms w) / 1000)
                  (next_jitter env w))).
Proof.
  intros Res Exc env self attempt before q1 blanks q2 ts q3 after w
         H1 H2 H3 Hb Hfree Hn Hne Hlen Hfuture Hfits Hu.
  set (ahead := (numeral_value ts 0 - now_ms w)%Z) in *.
  assert (Hpos : 0 < inject_Z ahead / 1000).
  { apply Qlt_shift_div_l; [reflexivity|].
    rewrite Qmult_0_l; change 0 with (inject_Z 0).
    rewrite <- Zlt_Qlt; subst ahead; lia. }
  assert (Hsmall : inject_Z ahead < PyFloat.limit).
  { unfold PyFloat.limit; rewrite <- Zlt_Qlt; exact Hfits. }
  assert (Hdiv : inject_Z ahead / 1000 * 1000 == inject_Z ahead)
    by (field; discriminate).
  rewrite (calculate_delay_with_hint env self attempt _ w
             (inject_Z ahead / 1000)); trivial.
  - cbn [fst]; f_equal.
    apply jitter_and_clamp_float_finite; [lra | nra | exact Hu].
  - apply extract_retry_after_hint; trivial.
    + now apply numeral_unquoted.
    + now apply int_of_numeral.
Qed.

(** C1, as stated, fails: a hint written without a quote after the header
    name is not found, and the delay comes from the exponential formula. *)
Lemma hint_precedence_as_stated_fails : ~ hint_precedence_as_stated.
Proof.
  intros H.
  destruct (H nat string always_limited default_rate_limiter 0%Z
              EmptyString "6000"%string EmptyString boot
              eq_refl ltac:(discriminate) eq_refl) as (d & Hv & Hd).
  vm_compute in Hv; injection Hv as <-.
  vm_compute in Hd; discriminate Hd.
Qed.

(** What the code does with the renderings of the hint, one second after
    the epoch: the unquoted header name is not matched, and a reset time
    beyond the range of a float makes the delay computation raise. *)
Example hint_renderings :
  _extract_retry_after plain_message boot = Value None
  /\ _extract_retry_after headers_message boot = Value (Some (5000 # 1000))
  /\ (exists d, fst (_calculate_delay always_limited default_rate_limiter 0%Z
                       plain_message boot) = Value (PyFloat.Fin d)
                /\ d == 1)
  /\ (exists d, fst (_calculate_delay always_limited default_rate_limiter 0%Z
                       headers_message boot) = Value (PyFloat.Fin d)
                /\ d == 5)
  /\ _extract_retry_after giant_hint_message boot = Error OverflowError
  /\ _calculate_delay always_limited default_rate_limiter 0%Z
       giant_hint_message boot = (Error OverflowError, boot).
Proof.
  split; [reflexivity|].
  split; [reflexivity|].
  split; [eexists; split; [vm_compute; reflexivity | reflexivity]|].
  split; [eexists; split; [vm_compute; reflexivity | reflexivity]|].
  split; vm_compute; reflexivity.
Qed.

(** ** The properties on the sample runs *)

Lemma quoted_hint_takes_precedence_witness :
  fst (_calculate_delay always_limited default_rate_limiter 0%Z
         headers_message boot)
  = Value (PyFloat.Fin
             (jitter_and_clamp default_rate_limiter
                (inject_Z (6000 - now_ms boot) / 1000)
                (next_jitter always_limited boot))).
Proof.
  refine (quoted_hint_takes_precedence nat string always_limited
            default_rate_limiter 0%Z "Error 429: {'"%string "'"%char
            " "%string "'"%char "6000"%string "'"%char "}"%string boot
            _ _ _ _ _ _ _ _ _ _ _); try reflexivity.
  - discriminate.
  - simpl; lia.
  - split; vm_compute; discriminate.
Defined.

Lemma fatal_error_fails_fast_witness :
  exists self' w' evs,
    call_with_retry message_of broken default_rate_limiter boot
    = (Raised "invalid api key"%string, self', w', evs)
    /\ invocations boot w' = 1%nat.
Proof.
  apply (fatal_error_fails_fast message_of broken default_rate_limiter boot).
  - simpl; lia.
  - reflexivity.
  - reflexivity.
Defined.

Lemma classification_by_message_text_witness :
  _is_rate_limit_error message_of default_rate_limiter
    "HTTP 429 Too Many Requests"%string = true
  /\ _is_rate_limit_error message_of default_rate_limiter "Quota Exceeded"%string
     = _is_rate_limit_error message_of one_retry "Quota Exceeded"%string.
Proof.
  split.
  - apply (proj1 (classification_by_message_text message_of)).
    exists "429"%string; split; [simpl; tauto|].
    now exists "http "%string, " too many requests"%string.
  - now apply (proj2 (classification_by_message_text message_of)).
Defined.


Lemma every_attempt_is_paced_witness :
  exists c self' w' evs,
    call_with_retry message_of broken default_rate_limiter
      (mkWorld (1 # 10) 0 0) = (c, self', w', evs)
    /\ paced_trace broken evs false false 0 (1 # 10) 0
         (last_request_time self') (clock w') (calls w')
    /\ (0 < calls w')%nat
    /\ spaced (1 # 5) (0 :: starts evs).
Proof.
  pose proof (every_attempt_is_paced message_of broken default_rate_limiter
                (mkWorld (1 # 10) 0 0) _ _ _ _ eq_refl)
    as (Htrace & Hcalls & Hsp).
  eexists _, _, _, _; split; [reflexivity|].
  split; [exact Htrace|]; split; [|exact Hsp].
  apply Hcalls; simpl; lia.
Defined.

Lemma request_count_counts_attempts_witness :
  request_count
    (snd (fst (fst (attempts_loop message_of broken [5%Z] None
                      default_rate_limiter boot)))) = 1%Z
  /\ request_count
       (snd (fst (fst (call_with_retry message_of recovering
                         default_rate_limiter boot)))) = (0 + 4)%Z.
Proof.
  split.
  - refine (proj1 (proj2 (proj1 (request_count_counts_attempts message_of
                                   broken)
                            5%Z None default_rate_limiter boot _ _ _ _
                            eq_refl))).
  - refine (proj1 (proj2 (request_count_counts_attempts message_of
                            recovering)
                     default_rate_limiter boot _ _ _ _ eq_refl)).
Defined.

Lemma fallback_is_unreachable_witness :
  (exists c self' w' evs,
     attempts_loop message_of always_limited
       (py_range (max_retries one_retry + 1)) None one_retry boot
     = (Finished c, self', w', evs)
     /\ c <> RaisedTypeError
     /\ call_with_retry message_of always_limited one_retry boot
        = (c, self', w', evs))
  /\ call_with_retry message_of always_limited no_attempt boot
     = (RaisedTypeError, no_attempt, boot, []).
Proof.
  split.
  - apply (proj1 (fallback_is_unreachable message_of always_limited
                    one_retry boot)).
    simpl; lia.
  - apply (proj2 (fallback_is_unreachable message_of always_limited
                    no_attempt boot)).
    reflexivity.
Defined.

(** * Further properties of the executor *)

(** ** The trace of a run *)

Section Trace.

Context {Res Exc : Type} (exc_str : Exc -> string) (env : Env Res Exc).

Lemma sleeps_app (l1 l2 : list (Event Exc)) :
  sleeps (l1 ++ l2) = sleeps l1 ++ sleeps l2.
Proof.
  induction l1 as [|[d|t|l] l1 IH]; simpl; trivial.
  now rewrite IH.
Qed.

Lemma logs_app (l1 l2 : list (Event Exc)) :
  logs (l1 ++ l2) = logs l1 ++ logs l2.
Proof.
  induction l1 as [|[d|t|l] l1 IH]; simpl; trivial.
  now rewrite IH.
Qed.

Lemma retries_app (l1 l2 : list (Event Exc)) :
  retries (l1 ++ l2) = retries l1 ++ retries l2.
Proof.
  induction l1 as [|[d|t|[j|e|m e|j m d e]] l1 IH]; simpl; trivial.
  now rewrite IH.
Qed.

(** The pacing step waits at most once, for a positive time, and logs
    nothing. *)
Lemma pace_waited (self self1 : RateLimiter) (w w1 : World)
  (waited : list (Event Exc)) :
  pace self w = (self1, w1, waited) ->
  waited = [] \/ exists d, 0 < d /\ waited = [EvSleep d].
Proof.
  unfold pace.
  destruct (Qlt_le_dec (time_time w - last_request_time self) (1 # 5))
    as [Hlt|Hge]; intros [= <- <- <-]; [right | now left].
  eexists; split; [|reflexivity]; lra.
Qed.

(** What a run of the loop leaves in its trace.  The attempts are
    [a, a+1, ...] and, unless there is none, the last of them is
    [max_retries]. *)
Lemma loop_trace (n : nat) :
  forall (a : nat) (le : option Exc) (self : RateLimiter) (w : World)
         (x : LoopExit Res Exc) (self' : RateLimiter) (w' : World)
         (evs : list (Event Exc)),
    n = 0%nat \/ Z.of_nat (a + n) = (max_retries self + 1)%Z ->
    attempts_loop exc_str env (map Z.of_nat (seq a n)) le self w
    = (x, self', w', evs) ->
    let inv := (calls w' - calls w)%nat in
    let nr := match x with
              | Finished c => announced c inv
              | FellThrough _ => pred inv
              end in
    (base_delay self' = base_delay self /\ max_delay self' = max_delay self)
    /\ Forall (fun d => 0 < d) (sleeps evs)
    /\ map (fun r => fst (fst (fst r))) (retries evs)
       = map Z.of_nat (seq (S a) nr)
    /\ Forall (fun r => snd (fst (fst r)) = (max_retries self + 1)%Z)
         (retries evs)
    /\ map (fun r => Failure (snd r)) (retries evs)
       = map (script env) (seq (calls w) nr)
    /\ List.length (backoffs false evs) = pred inv
    /\ Forall (fun d => (1 # 10) <= d
                        /\ d <= py_max (max_delay self) (1 # 10))
         (backoffs false evs)
    /\ map (fun d => PyFloat.format_2f (PyFloat.Fin d)) (backoffs false evs)
       = firstn (pred inv) (map (fun r => snd (fst r)) (retries evs))
    /\ logs evs
       = map retry_record (retries evs)
         ++ match x with
            | Finished c =>
                closing_log exc_str self (Z.of_nat (a + pred inv)) c
            | FellThrough _ => []
            end.
Proof.
  induction n as [|n IH]; intros a le self w x self' w' evs Hlast.
  - simpl; intros [= <- <- <- <-]; rewrite Nat.sub_diag; simpl.
    repeat split; constructor.
  - rewrite py_range_succ; cbn [attempts_loop].
    destruct Hlast as [Hlast|Hlast]; [discriminate|].
    destruct (pace self w) as [[self1 w1] waited] eqn:Hp.
    destruct (pace_props _ _ _ _ _ Hp) as (Hm & Hb & Hd & _ & _ & Hw & _).
    assert (Hsl : Forall (fun d => 0 < d) (sleeps waited)
                  /\ logs waited = [] /\ retries waited = []
                  /\ forall rest, backoffs false (waited ++ rest)
                                  = backoffs false rest).
    { destruct (pace_waited _ _ _ _ _ Hp) as [->|(d & Hd0 & ->)].
      - repeat split; trivial; constructor.
      - repeat split; trivial; simpl; repeat constructor; exact Hd0. }
    destruct Hsl as (Hs1 & Hl1 & Hr1 & Hb1).
    unfold invoke; rewrite Hw, Hm.
    destruct (script env (calls w)) as [r|e] eqn:Hs.
    + intros [= <- <- <- <-]; cbv zeta; cbn [calls].
      replace (S (calls w) - calls w)%nat with 1%nat by lia.
      cbn [pred announced]; rewrite Nat.add_0_r.
      rewrite <- app_assoc, sleeps_app, logs_app, retries_app, Hb1, Hl1, Hr1.
      cbn [closing_log]; destruct (Z.of_nat a >? 0)%Z; simpl;
        rewrite app_nil_r; repeat split; trivial; constructor.
    + change (_is_rate_limit_error exc_str self1 e)
        with (_is_rate_limit_error exc_str self e).
      destruct (_is_rate_limit_error exc_str self e) eqn:Hrl; cbn [negb].
      2: { intros [= <- <- <- <-]; cbv zeta; cbn [calls].
           replace (S (calls w) - calls w)%nat with 1%nat by lia.
           cbn [pred announced]; rewrite Nat.add_0_r.
           rewrite <- app_assoc, sleeps_app, logs_app, retries_app,
             Hb1, Hl1, Hr1.
           simpl; rewrite app_nil_r, Hrl.
           repeat split; trivial; constructor. }
      destruct (Z.of_nat a =? max_retries self)%Z eqn:Hex.
      { intros [= <- <- <- <-]; cbv zeta; cbn [calls].
        replace (S (calls w) - calls w)%nat with 1%nat by lia.
        cbn [pred announced]; rewrite Nat.add_0_r.
        rewrite <- app_assoc, sleeps_app, logs_app, retries_app,
          Hb1, Hl1, Hr1.
        simpl; rewrite app_nil_r, Hrl.
        repeat split; trivial; constructor. }
      apply Z.eqb_neq in Hex.
      destruct (_calculate_delay env self1 (Z.of_nat a) (exc_str e) _)
        as [[delay|x0] w3] eqn:Hcd;
        destruct (handler_world env _ _ _ _ _ _ Hcd) as [Hc3 _];
        cbn [calls] in Hc3.
      2: { intros [= <- <- <- <-]; cbv zeta; rewrite Hc3.
           replace (S (calls w) - calls w)%nat with 1%nat by lia.
           cbn [pred announced]; rewrite Nat.add_0_r.
           rewrite sleeps_app, logs_app, retries_app, Hb1, Hl1, Hr1.
           simpl; rewrite app_nil_r.
           repeat split; trivial; constructor. }
      destruct (PyFloat.sleep_duration delay) as [d|x0] eqn:Hsd.
      2: { intros [= <- <- <- <-]; cbv zeta; rewrite Hc3.
           replace (S (calls w) - calls w)%nat with 1%nat by lia.
           cbn [pred announced]; rewrite Nat.add_0_r.
           rewrite <- app_assoc, sleeps_app, logs_app, retries_app,
             Hb1, Hl1, Hr1.
           simpl; rewrite app_nil_r, Hs.
           replace (Z.of_nat a + 1)%Z with (Z.of_nat (S a)) by lia.
           repeat split; trivial; repeat constructor. }
      apply sleep_duration_value in Hsd as [-> Hd0].
      pose proof (calculate_delay_range env self1 (Z.of_nat a) (exc_str e)
                    (mkWorld (clock w1 + op_time env (calls w))
                       (S (calls w)) (drawn w1)) d) as Hrange.
      rewrite Hcd in Hrange; destruct (Hrange eq_refl) as [Hlo Hhi].
      rewrite Hd in Hhi.
      destruct (attempts_loop exc_str env (map Z.of_nat (seq (S a) n))
                  (Some e) self1 (time_sleep d w3))
        as [[[x1 s1] w4] later] eqn:Hl.
      intros [= <- <- <- <-]; cbv zeta.
      assert (Hlast' : n = 0%nat
                       \/ Z.of_nat (S a + n) = (max_retries self1 + 1)%Z)
        by (right; rewrite Hm; lia).
      destruct (loop_exit_shape exc_str env _ _ _ _ _ _ _ _ _ Hlast' Hl)
        as [_ Hexit].
      destruct (IH _ _ _ _ _ _ _ _ Hlast' Hl)
        as ((Hb' & Hd') & Hsl' & Hidx & Htot & Herr & Hlen & Hbound & Hshown
            & Hlog).
      cbn [time_sleep calls] in Hexit, Hidx, Herr, Hlen, Hshown, Hlog.
      rewrite Hc3 in Hexit, Hidx, Herr, Hlen, Hshown, Hlog.
      assert (Hk : (S (calls w) < calls w4)%nat).
      { destruct x1 as [[r|e'| |site x0]|le']; try tauto.
        destruct Hexit as (Hn & _); subst n; lia. }
      set (inv' := (calls w4 - S (calls w))%nat) in *.
      replace (calls w4 - calls w)%nat with (S inv') by (subst inv'; lia).
      assert (Hinv' : inv' = S (pred inv')) by (subst inv'; lia).
      set (nr' := match x1 with
                  | Finished c => announced c inv'
                  | FellThrough _ => pred inv'
                  end) in *.
      assert (Hnr : match x1 with
                    | Finished c => announced c (S inv')
                    | FellThrough _ => pred (S inv')
                    end = S nr').
      { subst nr'; destruct x1 as [[r|e'| |[|] x0]|le']; simpl; lia. }
      rewrite Hnr; cbn [pred].
      rewrite <- !app_assoc, sleeps_app, logs_app, retries_app,
        Hb1, Hl1, Hr1.
      cbn [app sleeps logs retries backoffs map seq fst snd List.length].
      rewrite Hidx, Herr, Hlog, Hs, Hlen.
      rewrite Hinv' at 3; cbn [firstn]; rewrite <- Hshown.
      replace (a + inv')%nat with (S a + pred inv')%nat by lia.
      rewrite Hd, Hm in *.
      assert (Hcl : forall c : Completion Res Exc,
                      closing_log exc_str self1 (Z.of_nat (S a + pred inv')) c
                      = closing_log exc_str self
                          (Z.of_nat (S a + pred inv')) c).
      { intros [r|e'| |site x0]; simpl; trivial; now rewrite Hm. }
      split; [split; [now rewrite Hb', Hb | now rewrite Hd']|].
      split.
      { apply Forall_app; split; [exact Hs1|].
        constructor; [lra | exact Hsl']. }
      split; [f_equal; lia|].
      split; [constructor; [reflexivity | exact Htot]|].
      split; [reflexivity|].
      split; [lia|].
      split; [constructor; [split; assumption | exact Hbound]|].
      split; [reflexivity|].
      cbn; f_equal; f_equal.
      destruct x1 as [c|le']; [apply Hcl | reflexivity].
Qed.

End Trace.

(** ** Whole calls *)

Section Calls.

Context {Res Exc : Type} (exc_str : Exc -> string) (env : Env Res Exc).

(** The trace of a call, from the trace of its loop. *)
Lemma call_trace (self : RateLimiter) (w : World) :
  forall (c : Completion Res Exc) (self' : RateLimiter) (w' : World)
         (evs : list (Event Exc)),
    call_with_retry exc_str env self w = (c, self', w', evs) ->
    let n := invocations w w' in
    (max_retries self' = max_retries self
     /\ base_delay self' = base_delay self
     /\ max_delay self' = max_delay self)
    /\ (n <= Z.to_nat (max_retries self + 1))%nat
    /\ Forall (fun d => 0 < d) (sleeps evs)
    /\ map (fun r => fst (fst (fst r))) (retries evs)
       = map Z.of_nat (seq 1 (announced c n))
    /\ Forall (fun r => snd (fst (fst r)) = (max_retries self + 1)%Z)
         (retries evs)
    /\ map (fun r => Failure (snd r)) (retries evs)
       = map (script env) (seq (calls w) (announced c n))
    /\ List.length (backoffs false evs) = pred n
    /\ Forall (fun d => (1 # 10) <= d
                        /\ d <= py_max (max_delay self) (1 # 10))
         (backoffs false evs)
    /\ map (fun d => PyFloat.format_2f (PyFloat.Fin d)) (backoffs false evs)
       = firstn (pred n) (map (fun r => snd (fst r)) (retries evs))
    /\ logs evs
       = map retry_record (retries evs)
         ++ closing_log exc_str self (Z.of_nat (pred n)) c.
Proof.
  intros c self' w' evs; unfold call_with_retry, invocations.
  destruct (py_range_attempts self) as [Hrange Hlast].
  destruct (attempts_loop exc_str env _ None self w)
    as [[[x s1] w1] evs1] eqn:Hl.
  destruct (loop_counts exc_str env _ _ _ _ _ _ _ _ Hl)
    as (_ & _ & Hm & _ & Hbound & _).
  rewrite Hrange in Hl, Hbound.
  rewrite length_map, length_seq in Hbound.
  destruct (loop_exit_shape exc_str env _ _ _ _ _ _ _ _ _ Hlast Hl)
    as [_ Hexit].
  destruct (loop_trace exc_str env _ _ _ _ _ _ _ _ _ Hlast Hl)
    as (Hpol & Hsl & Hidx & Htot & Herr & Hlen & Hbd & Hshown & Hlog).
  cbn [plus] in Hlog.
  destruct x as [c1|le'].
  - intros [= <- <- <- <-]; cbv zeta; repeat split; trivial; apply Hpol.
  - destruct Hexit as (_ & -> & _).
    intros [= <- <- <- <-]; cbv zeta; repeat split; trivial; apply Hpol.
Qed.

Lemma Qsum_bounded (l : list Q) (M : Q) :
  Forall (fun d => d <= M) l ->
  Qsum l <= inject_Z (Z.of_nat (List.length l)) * M.
Proof.
  induction 1 as [|d l Hd _ IH]; simpl Qsum.
  - change (inject_Z (Z.of_nat (List.length (@nil Q)))) with 0; lra.
  - assert (E : inject_Z (Z.of_nat (List.length (d :: l)))
                == inject_Z (Z.of_nat (List.length l)) + 1).
    { simpl List.length; rewrite Nat2Z.inj_succ; unfold Z.succ.
      now rewrite inject_Z_plus. }
    rewrite E; lra.
Qed.

(** X1.  Every wait of a call is strictly positive: [time.sleep] is never
    asked for a negative or an empty wait. *)
Theorem every_wait_is_positive :
  forall (self : RateLimiter) (w : World) (c : Completion Res Exc)
         (self' : RateLimiter) (w' : World) (evs : list (Event Exc)),
    call_with_retry exc_str env self w = (c, self', w', evs) ->
    Forall (fun d => 0 < d) (sleeps evs).
Proof.
  intros self w c self' w' evs Hc.
  exact (proj1 (proj2 (proj2 (call_trace _ _ _ _ _ _ Hc)))).
Qed.

(** X2.  A call that makes [n] invocations announces its retries with the
    numbers 1, 2, ... in order, each out of [max_retries + 1] allowed
    attempts: [n - 1] of them, and [n] when the call ends by an error of
    the wait that follows the last announcement.  The error of the
    announcement number [j] is the one that the invocation number [j] of
    the call raised.  The call makes [n - 1] backoff waits; each of them
    lies between the floor of 0.1 s and the larger of [max_delay] and the
    floor, and the announcement before it shows its duration rounded to
    two decimals. *)
Theorem retries_are_numbered_and_bounded :
  forall (self : RateLimiter) (w : World) (c : Completion Res Exc)
         (self' : RateLimiter) (w' : World) (evs : list (Event Exc)),
    call_with_retry exc_str env self w = (c, self', w', evs) ->
    map (fun r => fst (fst (fst r))) (retries evs)
    = map (fun j => (j + 1)%Z)
        (py_range (Z.of_nat (announced c (invocations w w'))))
    /\ Forall (fun r => snd (fst (fst r)) = (max_retries self + 1)%Z)
         (retries evs)
    /\ map (fun r => Failure (snd r)) (retries evs)
       = map (script env)
           (seq (calls w) (announced c (invocations w w')))
    /\ List.length (backoffs false evs) = pred (invocations w w')
    /\ Forall (fun d => (1 # 10) <= d
                        /\ d <= py_max (max_delay self) (1 # 10))
         (backoffs false evs)
    /\ map (fun d => PyFloat.format_2f (PyFloat.Fin d)) (backoffs false evs)
       = firstn (pred (invocations w w'))
           (map (fun r => snd (fst r)) (retries evs)).
Proof.
  intros self w c self' w' evs Hc.
  destruct (call_trace _ _ _ _ _ _ Hc)
    as (_ & _ & _ & Hidx & Htot & Herr & Hlen & Hbd & Hshown & _).
  unfold py_range; rewrite Nat2Z.id.
  repeat split; trivial.
  rewrite Hidx, map_map, <- seq_shift, map_map.
  apply map_ext; intros j; lia.
Qed.

(** X3.  With [max_retries >= 0], the backoff waits of a call add up to at
    most [max_retries] times the larger of [max_delay] and the floor of
    0.1 s. *)
Theorem total_backoff_is_bounded :
  forall (self : RateLimiter) (w : World) (c : Completion Res Exc)
         (self' : RateLimiter) (w' : World) (evs : list (Event Exc)),
    (0 <= max_retries self)%Z ->
    call_with_retry exc_str env self w = (c, self', w', evs) ->
    Qsum (backoffs false evs)
    <= inject_Z (max_retries self) * py_max (max_delay self) (1 # 10).
Proof.
  intros self w c self' w' evs Hm Hc.
  destruct (call_trace _ _ _ _ _ _ Hc)
    as (_ & Hinv & _ & _ & _ & _ & Hlen & Hbd & _).
  assert (Hall : Forall (fun d => d <= py_max (max_delay self) (1 # 10))
                   (backoffs false evs)).
  { eapply Forall_impl; [|exact Hbd]; simpl; tauto. }
  pose proof (Qsum_bounded _ _ Hall) as Hsum; rewrite Hlen in Hsum.
  pose proof (py_max_floor (max_delay self) (1 # 10)) as Hfloor.
  assert (Hk : inject_Z (Z.of_nat (pred (invocations w w')))
               <= inject_Z (max_retries self))
    by (rewrite <- Zle_Qle; lia).
  nra.
Qed.

(** X4.  A call never makes more than [max_retries + 1] invocations, and
    with [max_retries >= 0] it makes at least one. *)
Theorem invocations_are_bounded :
  forall (self : RateLimiter) (w : World) (c : Completion Res Exc)
         (self' : RateLimiter) (w' : World) (evs : list (Event Exc)),
    call_with_retry exc_str env self w = (c, self', w', evs) ->
    (invocations w w' <= Z.to_nat (max_retries self + 1))%nat
    /\ ((0 <= max_retries self)%Z -> (1 <= invocations w w')%nat).
Proof.
  intros self w c self' w' evs Hc.
  destruct (call_trace _ _ _ _ _ _ Hc) as (_ & Hinv & _).
  split; [exact Hinv|]; intros Hm.
  destruct (call_shape exc_str env _ _ _ _ _ _ Hc) as (_ & Hexit & _).
  unfold invocations.
  destruct c as [r|e| |site x]; [destruct Hexit as [Hlt _]
                                |destruct Hexit as (Hlt & _)
                                |destruct Hexit as (Hneg & _)
                                |destruct Hexit as (Hlt & _)]; lia.
Qed.

(** X5.  A call never changes the policy of its executor: [max_retries],
    [base_delay] and [max_delay] are the same after it. *)
Theorem policy_is_preserved :
  forall (self : RateLimiter) (w : World) (c : Completion Res Exc)
         (self' : RateLimiter) (w' : World) (evs : list (Event Exc)),
    call_with_retry exc_str env self w = (c, self', w', evs) ->
    max_retries self' = max_retries self
    /\ base_delay self' = base_delay self
    /\ max_delay self' = max_delay self.
Proof.
  intros self w c self' w' evs Hc.
  exact (proj1 (call_trace _ _ _ _ _ _ Hc)).
Qed.

(** X6.  The log of a call is the announcements of its retries followed by
    one closing record that tells how it ended: a recovery record after at
    least one retry, nothing at all for a success at the first attempt, a
    non-rate-limit record for a fatal error and an exhaustion record when
    the retries ran out.  A call that a built-in operation ended while a
    retry was being prepared has no closing record. *)
Theorem log_tells_how_the_call_ended :
  forall (self : RateLimiter) (w : World) (c : Completion Res Exc)
         (self' : RateLimiter) (w' : World) (evs : list (Event Exc)),
    call_with_retry exc_str env self w = (c, self', w', evs) ->
    logs evs
    = map retry_record (retries evs)
      ++ closing_log exc_str self (Z.of_nat (pred (invocations w w'))) c
    /\ (invocations w w' = 1%nat ->
        logs evs = match c with
                   | Returned _ => []
                   | Raised e =>
                       if _is_rate_limit_error exc_str self e
                       then [LogExhausted (max_retries self) e]
                       else [LogNonRateLimit e]
                   | RaisedTypeError => []
                   | RaisedInHandler InCalculateDelay _ => []
                   | RaisedInHandler InSleep _ =>
                       map retry_record (retries evs)
                   end).
Proof.
  intros self w c self' w' evs Hc.
  destruct (call_trace _ _ _ _ _ _ Hc)
    as (_ & _ & _ & Hidx & _ & _ & _ & _ & _ & Hlog).
  split; [exact Hlog|]; intros Hone.
  rewrite Hlog; rewrite Hone in Hidx |- *.
  destruct c as [r|e| |[|] x]; cbn [announced pred seq map] in Hidx;
    try (apply map_eq_nil in Hidx; rewrite Hidx); simpl;
    trivial; apply app_nil_r.
Qed.

End Calls.

(** ** Fatal errors after retries, and calls in sequence *)

Section Sequences.

Context {Res Exc : Type} (exc_str : Exc -> string) (env : Env Res Exc).

Lemma spaced_app (gap a : Q) (l1 l2 : list Q) :
  spaced gap (a :: l1) -> spaced gap (last l1 a :: l2) ->
  spaced gap (a :: l1 ++ l2).
Proof.
  revert a; induction l1 as [|b l1 IH]; intros a H1 H2; [exact H2|].
  destruct H1 as [Hab H1].
  split; [exact Hab|].
  apply IH; [exact H1|].
  now rewrite <- (last_after_head _ b a l1).
Qed.


(** X8.  Calls on one executor compose: after two calls in a row, for any
    two callables and whatever happened to the clock in between,
    [request_count] has grown by the invocations of both, the policy is
    the one the executor started with, and the starts of all the attempts
    of the two calls are at least 0.2 s apart. *)
Theorem successive_calls_compose :
  forall (env2 : Env Res Exc) (self : RateLimiter) (w : World)
         (c1 : Completion Res Exc) (self1 : RateLimiter) (w1 : World)
         (evs1 : list (Event Exc)) (w2 : World)
         (c2 : Completion Res Exc) (self2 : RateLimiter) (w2' : World)
         (evs2 : list (Event Exc)),
    call_with_retry exc_str env self w = (c1, self1, w1, evs1) ->
    call_with_retry exc_str env2 self1 w2 = (c2, self2, w2', evs2) ->
    request_count self2
    = (request_count self
       + Z.of_nat (invocations w w1 + invocations w2 w2'))%Z
    /\ (max_retries self2 = max_retries self
        /\ base_delay self2 = base_delay self
        /\ max_delay self2 = max_delay self)
    /\ spaced (1 # 5)
         (last_request_time self :: starts evs1 ++ starts evs2).
Proof.
  intros env2 self w c1 self1 w1 evs1 w2 c2 self2 w2' evs2 H1 H2.
  destruct (call_counts exc_str env _ _ _ _ _ _ H1)
    as (_ & Hrc1 & _ & Hsp1 & Hlast1).
  destruct (call_counts exc_str env2 _ _ _ _ _ _ H2)
    as (_ & Hrc2 & _ & Hsp2 & _).
  destruct (call_trace exc_str env _ _ _ _ _ _ H1) as ((Hm1 & Hb1 & Hd1) & _).
  destruct (call_trace exc_str env2 _ _ _ _ _ _ H2)
    as ((Hm2 & Hb2 & Hd2) & _).
  split; [rewrite Hrc2, Hrc1; lia|].
  split; [repeat split; congruence|].
  apply spaced_app; [exact Hsp1 | now rewrite <- Hlast1].
Qed.

End Sequences.

(** ** More on classification and on the hint *)

Section Texts.

Local Open Scope string_scope.

Lemma lower_app (a b : string) :
  PyStr.lower (a ++ b) = PyStr.lower a ++ PyStr.lower b.
Proof. induction a as [|c a IH]; simpl; [reflexivity | now rewrite IH]. Qed.

Lemma lower_char_idempotent (c : ascii) :
  PyStr.lower_char (PyStr.lower_char c) = PyStr.lower_char c.
Proof. destruct c as [[] [] [] [] [] [] [] []]; reflexivity. Qed.

Lemma lower_idempotent (s : string) :
  PyStr.lower (PyStr.lower s) = PyStr.lower s.
Proof.
  induction s as [|c s IH]; simpl; [reflexivity|].
  now rewrite lower_char_idempotent, IH.
Qed.

(** X9.  Classification survives wrapping and letter case: an error whose
    message contains, anywhere, the message of a rate-limit error is a
    rate-limit error too, and an error whose message is the lowercased
    message of another gets the same verdict. *)
Theorem classification_survives_wrapping :
  forall (Exc : Type) (exc_str : Exc -> string) (self : RateLimiter)
         (e e' : Exc),
    ((exists pre post, exc_str e' = pre ++ exc_str e ++ post) ->
     _is_rate_limit_error exc_str self e = true ->
     _is_rate_limit_error exc_str self e' = true)
    /\ (exc_str e' = PyStr.lower (exc_str e) ->
        _is_rate_limit_error exc_str self e'
        = _is_rate_limit_error exc_str self e).
Proof.
  intros Exc exc_str self e e'; split.
  - intros (pre & post & Hwrap); unfold _is_rate_limit_error.
    rewrite !existsb_exists.
    intros (kw & Hin & Hkw); exists kw; split; [exact Hin|].
    apply contains_iff in Hkw as (p & q & Hpq).
    apply contains_iff.
    exists (PyStr.lower pre ++ p), (q ++ PyStr.lower post).
    rewrite Hwrap, !lower_app, Hpq.
    now rewrite !append_assoc.
  - intros Hlow; unfold _is_rate_limit_error.
    now rewrite Hlow, lower_idempotent.
Qed.

(** The first occurrence of the header name decides what [re.search]
    returns, when a hint follows it. *)
Lemma search_first_hint (before : string) (q1 : ascii) (blanks : string)
  (q2 : ascii) (g : string) (q3 : ascii) (after : string) :
  header_free before (hint_with_quoted_name q1 blanks q2 g q3 ++ after)
  = true ->
  PyStr.is_quote q1 = true -> PyStr.is_quote q2 = true ->
  PyStr.is_quote q3 = true -> blank blanks = true ->
  unquoted g = true -> g <> "" ->
  Re.search (before ++ hint_with_quoted_name q1 blanks q2 g q3 ++ after)
  = Some g.
Proof.
  intros Hfree H1 H2 H3 Hb Hg Hne.
  rewrite (search_header_free _ _ Hfree).
  apply search_here, match_here_hint; assumption.
Qed.

(** X10.  A hint whose time is not in the future is ignored: when the
    first hint of the message holds a time [reset <= now_ms], no delay is
    extracted and the delay is the one of the exponential formula; where
    that formula stays within the range of a float, the backoff starts from
    [base_delay * 2^attempt]. *)
Theorem stale_hint_is_ignored :
  forall (Res Exc : Type) (env : Env Res Exc) (self : RateLimiter)
         (attempt : Z) (before : string) (q1 : ascii) (blanks : string)
         (q2 : ascii) (g : string) (q3 : ascii) (after : string)
         (w : World) (reset : Z),
    header_free before (hint_with_quoted_name q1 blanks q2 g q3 ++ after)
    = true ->
    PyStr.is_quote q1 = true -> PyStr.is_quote q2 = true ->
    PyStr.is_quote q3 = true -> blank blanks = true ->
    unquoted g = true -> PyInt.int g = Some reset ->
    (reset <= now_ms w)%Z ->
    let message :=
      before ++ hint_with_quoted_name q1 blanks q2 g q3 ++ after in
    _extract_retry_after message w = Value None
    /\ _calculate_delay env self attempt message w
       = delay_without_hint env self attempt w
    /\ (backoff_in_range self attempt -> 0 <= base_delay self ->
        -1 <= next_jitter env w <= 1 ->
        fst (_calculate_delay env self attempt message w)
        = Value (PyFloat.Fin
                   (jitter_and_clamp self
                      (base_delay self * inject_Z (2 ^ attempt))
                      (next_jitter env w)))).
Proof.
  intros Res Exc env self attempt before q1 blanks q2 g q3 after w reset
         Hfree H1 H2 H3 Hb Hg Hint Hpast message.
  assert (Hne : g <> "") by (intros ->; discriminate Hint).
  assert (Hnone : _extract_retry_after message w = Value None).
  { unfold _extract_retry_after, message.
    rewrite (search_first_hint _ _ _ _ _ _ _ Hfree H1 H2 H3 Hb Hg Hne), Hint.
    fold (now_ms w).
    destruct (reset >? now_ms w)%Z eqn:E; [|reflexivity].
    apply Z.gtb_gt in E; lia. }
  split; [exact Hnone|].
  rewrite (calculate_delay_without_hint env self attempt message w Hnone).
  split; [reflexivity|].
  intros Hrange Hbase Hu.
  now rewrite (delay_without_hint_finite env self attempt w Hrange Hbase Hu).
Qed.

(** X11.  Only the first hint is read: when the text quoted by the first
    hint is not an integer for [int], no delay is extracted, whatever
    follows in the message, a well-formed hint included, and the delay is
    the one of the exponential formula; where that formula stays within
    the range of a float, the backoff starts from
    [base_delay * 2^attempt]. *)
Theorem unreadable_first_hint_hides_the_rest :
  forall (Res Exc : Type) (env : Env Res Exc) (self : RateLimiter)
         (attempt : Z) (before : string) (q1 : ascii) (blanks : string)
         (q2 : ascii) (g : string) (q3 : ascii) (after : string)
         (w : World),
    header_free before (hint_with_quoted_name q1 blanks q2 g q3 ++ after)
    = true ->
    PyStr.is_quote q1 = true -> PyStr.is_quote q2 = true ->
    PyStr.is_quote q3 = true -> blank blanks = true ->
    unquoted g = true -> g <> "" -> PyInt.int g = None ->
    let message :=
      before ++ hint_with_quoted_name q1 blanks q2 g q3 ++ after in
    _extract_retry_after message w = Value None
    /\ _calculate_delay env self attempt message w
       = delay_without_hint env self attempt w
    /\ (backoff_in_range self attempt -> 0 <= base_delay self ->
        -1 <= next_jitter env w <= 1 ->
        fst (_calculate_delay env self attempt message w)
        = Value (PyFloat.Fin
                   (jitter_and_clamp self
                      (base_delay self * inject_Z (2 ^ attempt))
                      (next_jitter env w)))).
Proof.
  intros Res Exc env self attempt before q1 blanks q2 g q3 after w
         Hfree H1 H2 H3 Hb Hg Hne Hint message.
  assert (Hnone : _extract_retry_after message w = Value None).
  { unfold _extract_retry_after, message.
    now rewrite (search_first_hint _ _ _ _ _ _ _ Hfree H1 H2 H3 Hb Hg Hne),
      Hint. }
  split; [exact Hnone|].
  rewrite (calculate_delay_without_hint env self attempt message w Hnone).
  split; [reflexivity|].
  intros Hrange Hbase Hu.
  now rewrite (delay_without_hint_finite env self attempt w Hrange Hbase Hu).
Qed.

(** X12.  An extracted delay is at least one millisecond, so the truth
    test of [_calculate_delay] never discards it: for every message the
    backoff starts from the extracted delay when there is one, and the
    delay is then that value with the jitter, the cap and the floor
    applied, for a jitter factor in [[-1, 1]]; with no delay extracted the
    delay is the one of the exponential formula; and an error raised by
    the extraction is raised by [_calculate_delay], before any random
    draw. *)
Theorem extracted_hint_is_always_used :
  forall (Res Exc : Type) (env : Env Res Exc) (self : RateLimiter)
         (attempt : Z) (error_message : string) (w : World),
    match _extract_retry_after error_message w with
    | Value (Some d) =>
        (1 # 1000) <= d
        /\ _calculate_delay env self attempt error_message w
           = (Value (jitter_and_clamp_float self (PyFloat.Fin d)
                       (rng env (drawn w))),
              snd (random_random env w))
        /\ (-1 <= next_jitter env w <= 1 ->
            fst (_calculate_delay env self attempt error_message w)
            = Value (PyFloat.Fin
                       (jitter_and_clamp self d (next_jitter env w))))
    | Value None =>
        _calculate_delay env self attempt error_message w
        = delay_without_hint env self attempt w
    | Error x =>
        _calculate_delay env self attempt error_message w = (Error x, w)
    end.
Proof.
  intros Res Exc env self attempt msg w.
  destruct (_extract_retry_after msg w) as [[d|]|x] eqn:E.
  - destruct (extract_retry_after_bounded _ _ _ E) as [Hmin Hmax].
    assert (Hcd : _calculate_delay env self attempt msg w
                  = (Value (jitter_and_clamp_float self (PyFloat.Fin d)
                              (rng env (drawn w))),
                     snd (random_random env w)))
      by (apply calculate_delay_with_hint; [exact E | lra]).
    split; [exact Hmin|]; split; [exact Hcd|].
    intros Hu; rewrite Hcd; cbn [fst]; f_equal.
    apply jitter_and_clamp_float_finite; [lra | lra | exact Hu].
  - now apply calculate_delay_without_hint.
  - now apply calculate_delay_error.
Qed.

End Texts.

(** ** Helpers *)

Section HelperFacts.

Import Helpers.

Local Open Scope string_scope.
Local Open Scope Z_scope.

Lemma length_append (a b : string) :
  String.length (a ++ b) = (String.length a + String.length b)%nat.
Proof. induction a as [|c a IH]; simpl; [reflexivity | now rewrite IH]. Qed.

Lemma len_append (a b : string) : len (a ++ b) = len a + len b.
Proof. unfold len; rewrite length_append; lia. Qed.

(** The first [n] characters of a string, and what is left. *)
Lemma substring_prefix (n : nat) :
  forall s, exists rest,
    s = String.substring 0 n s ++ rest
    /\ String.length (String.substring 0 n s)
       = Nat.min n (String.length s).
Proof.
  induction n as [|n IH]; intros s.
  - exists s; destruct s; split; reflexivity.
  - destruct s as [|c s]; [exists ""; split; reflexivity|].
    destruct (IH s) as (rest & Hs & Hl).
    exists rest; simpl; split; [now rewrite <- Hs | now rewrite Hl].
Qed.

(** A slice up to a position inside the text is a prefix of that length. *)
Lemma slice_to_prefix (s : string) (stop : Z) :
  0 <= stop <= len s ->
  exists rest, s = slice_to s stop ++ rest /\ len (slice_to s stop) = stop.
Proof.
  intros Hstop; unfold slice_to.
  destruct (stop <? 0) eqn:E; [apply Z.ltb_lt in E; lia|].
  rewrite Z.min_l by lia.
  destruct (substring_prefix (Z.to_nat stop) s) as (rest & Hs & Hl).
  exists rest; split; [exact Hs|].
  unfold len in *; rewrite Hl; lia.
Qed.

(** X13.  With a suffix no longer than [max_length], [truncate_text] never
    returns more than [max_length] characters: a text that fits comes back
    as it is, and a longer one comes back as its first
    [max_length - len(suffix)] characters followed by the suffix,
    [max_length] characters in all. *)
Theorem truncate_text_fits :
  forall (text : string) (max_length : Z) (suffix : string),
    len suffix <= max_length ->
    len (truncate_text text max_length suffix)
    = Z.min (len text) max_length
    /\ (len text <= max_length ->
        truncate_text text max_length suffix = text)
    /\ (max_length < len text ->
        exists kept dropped,
          text = kept ++ dropped
          /\ len kept = max_length - len suffix
          /\ truncate_text text max_length suffix = kept ++ suffix).
Proof.
  intros text m sfx Hs; unfold truncate_text.
  assert (H0 : 0 <= len sfx) by (unfold len; lia).
  destruct (len text <=? m) eqn:E.
  - apply Z.leb_le in E; repeat split; trivial; lia.
  - apply Z.leb_gt in E.
    destruct (slice_to_prefix text (m - len sfx)) as (rest & Ht & Hl);
      [lia|].
    split; [rewrite len_append, Hl; lia|].
    split; [lia|]; intros _.
    now exists (slice_to text (m - len sfx)), rest.
Qed.

(** X14.  With a suffix no longer than [max_length], truncating twice is
    truncating once. *)
Theorem truncate_text_idempotent :
  forall (text : string) (max_length : Z) (suffix : string),
    len suffix <= max_length ->
    truncate_text (truncate_text text max_length suffix) max_length suffix
    = truncate_text text max_length suffix.
Proof.
  intros text m sfx Hs.
  assert (Hfit : len (truncate_text text m sfx) <= m).
  { unfold truncate_text at 1.
    assert (H0 : 0 <= len sfx) by (unfold len; lia).
    destruct (len text <=? m) eqn:E; [now apply Z.leb_le in E|].
    apply Z.leb_gt in E.
    destruct (slice_to_prefix text (m - len sfx)) as (rest & _ & Hl); [lia|].
    rewrite len_append, Hl; lia. }
  unfold truncate_text at 1.
  apply Z.leb_le in Hfit; now rewrite Hfit.
Qed.

(** X15.  With a suffix longer than [max_length], a text longer than
    [max_length] comes back longer than [max_length]: the suffix alone
    exceeds the limit, and the slice that precedes it counts from the end
    of the text. *)
Theorem truncate_text_overshoots :
  forall (text : string) (max_length : Z) (suffix : string),
    max_length < len suffix -> max_length < len text ->
    max_length < len (truncate_text text max_length suffix)
    /\ len (truncate_text text max_length suffix)
       = Z.max 0 (len text + max_length - len suffix) + len suffix.
Proof.
  intros text m sfx Hs Ht; unfold truncate_text.
  destruct (len text <=? m) eqn:E; [apply Z.leb_le in E; lia|].
  rewrite len_append.
  assert (Hl : len (slice_to text (m - len sfx))
               = Z.max 0 (len text + m - len sfx)).
  { unfold slice_to.
    destruct (m - len sfx <? 0) eqn:E'; [|apply Z.ltb_ge in E'; lia].
    destruct (substring_prefix
                (Z.to_nat (Z.min (Z.max 0 (m - len sfx + len text))
                             (len text))) text) as (rest & _ & Hl).
    unfold len in *; rewrite Hl; lia. }
  rewrite Hl; split; lia.
Qed.

(** X16.  [validate_api_key] accepts exactly the keys that start with
    [gsk_] and have more than 20 characters: the prefix followed by at
    least 17 more. *)
Theorem validate_api_key_accepts :
  forall api_key : string,
    validate_api_key api_key = true <->
    exists rest, api_key = "gsk_" ++ rest /\ 17 <= len rest.
Proof.
  intros k; unfold validate_api_key; split.
  - destruct k as [|c k]; [discriminate|].
    intros H; apply andb_true_iff in H as [Hp Hl].
    destruct (startswith_inv _ _ Hp) as [rest Hrest].
    exists rest; split; [exact Hrest|].
    apply Z.gtb_gt in Hl; rewrite Hrest, len_append in Hl.
    change (len "gsk_") with 4 in Hl; lia.
  - intros (rest & -> & Hl).
    cbn [append].
    change (String "g" (String "s" (String "k" (String "_" rest))))
      with ("gsk_" ++ rest).
    rewrite startswith_app, len_append; change (len "gsk_") with 4.
    apply Z.gtb_gt; lia.
Qed.

Lemma missing_keys_fold {V : Type} (state : list (string * V))
  (required : list string) :
  forall acc,
    fold_left (fun missing key =>
                 if negb (dict_has state key) then (missing ++ [key])%list
                 else missing) required acc
    = (acc ++ filter (fun key => negb (dict_has state key)) required)%list.
Proof.
  induction required as [|k required IH]; intros acc; simpl.
  - now rewrite app_nil_r.
  - rewrite IH; destruct (negb (dict_has state k)); [|reflexivity].
    now rewrite <- app_assoc.
Qed.

(** X17.  [validate_workflow_state] reports the required keys that the
    state lacks, in the order they were asked for and as often as they were
    asked for, and it calls the state valid exactly when every required key
    is in it. *)
Theorem validate_workflow_state_reports_missing :
  forall (V : Type) (state : list (string * V)) (required : list string),
    snd (validate_workflow_state state required)
    = filter (fun key => negb (dict_has state key)) required
    /\ (fst (validate_workflow_state state required) = true <->
        forall key, In key required ->
                    exists value, In (key, value) state).
Proof.
  intros V state required; unfold validate_workflow_state.
  rewrite missing_keys_fold; simpl; split; [reflexivity|].
  rewrite Z.eqb_eq; split.
  - intros Hlen key Hin.
    assert (Hnil : filter (fun key => negb (dict_has state key)) required
                   = []%list)
      by (destruct (filter _ required); [reflexivity | discriminate]).
    destruct (dict_has state key) eqn:E.
    + apply existsb_exists in E as ([k v] & Hitem & Hk).
      apply String.eqb_eq in Hk; simpl in Hk; subst k.
      now exists v.
    + assert (Hf : In key (filter (fun key => negb (dict_has state key))
                             required))
        by (apply filter_In; rewrite E; now split).
      rewrite Hnil in Hf; contradiction.
  - intros Hall.
    assert (Hnil : filter (fun key => negb (dict_has state key)) required
                   = []%list).
    { destruct (filter _ required) as [|k rest] eqn:E; [reflexivity|].
      assert (Hk : In k (filter (fun key => negb (dict_has state key))
                           required)) by (rewrite E; now left).
      apply filter_In in Hk as [Hin Hno].
      destruct (Hall k Hin) as [v Hv].
      apply negb_true_iff in Hno.
      assert (Hyes : dict_has state k = true).
      { apply existsb_exists; exists (k, v); split; [exact Hv|].
        apply String.eqb_refl. }
      congruence. }
    now rewrite Hnil.
Qed.

End HelperFacts.

(** X18.  The backoff saturates: with no hint, a jitter factor in
    [[-1, 1]], a cap no lower than the floor and a backoff within the range
    of a float, once three quarters of [base_delay * 2^attempt] reach
    [max_delay] the delay is [max_delay], whatever the jitter. *)
Theorem delay_saturates_at_the_cap :
  forall (Res Exc : Type) (env : Env Res Exc) (self : RateLimiter)
         (attempt : Z) (error_message : string) (w : World),
    _extract_retry_after error_message w = Value None ->
    backoff_in_range self attempt ->
    -1 <= next_jitter env w <= 1 ->
    (1 # 10) <= max_delay self ->
    max_delay self <= (3 # 4) * (base_delay self * inject_Z (2 ^ attempt)) ->
    exists delay,
      fst (_calculate_delay env self attempt error_message w)
      = Value (PyFloat.Fin delay)
      /\ delay == max_delay self.
Proof.
  intros Res Exc env self attempt msg w Hhint Hrange Hu Hfloor Hsat.
  assert (Hpow : 0 < inject_Z (2 ^ attempt)).
  { change 0 with (inject_Z 0); rewrite <- Zlt_Qlt.
    apply Z.pow_pos_nonneg; [lia | apply Hrange]. }
  assert (Hbase : 0 <= base_delay self) by nra.
  rewrite (calculate_delay_without_hint env self attempt msg w Hhint).
  rewrite (delay_without_hint_finite env self attempt w Hrange Hbase Hu).
  eexists; split; [reflexivity|].
  unfold jitter_and_clamp, py_max, py_min.
  set (b := base_delay self * inject_Z (2 ^ attempt)) in *.
  set (u := next_jitter env w) in *.
  assert (Hb : max_delay self <= b + b * (1 # 4) * u) by nra.
  destruct (Qlt_le_dec (max_delay self) (b + b * (1 # 4) * u));
    match goal with
    | |- (if ?c then _ else _) == _ => destruct c
    end; lra.
Qed.

(** ** The further properties on the sample runs *)

Lemma every_wait_is_positive_witness :
  Forall (fun d => 0 < d)
    (sleeps (snd (call_with_retry message_of always_limited one_retry
                    boot))).
Proof.
  exact (every_wait_is_positive message_of always_limited one_retry
           boot _ _ _ _ eq_refl).
Defined.

Lemma retries_are_numbered_and_bounded_witness :
  map (fun r => fst (fst (fst r)))
    (retries (snd (call_with_retry message_of always_limited one_retry
                     boot)))
  = [1%Z].
Proof.
  exact (proj1 (retries_are_numbered_and_bounded message_of always_limited
                  one_retry boot _ _ _ _ eq_refl)).
Defined.

Lemma total_backoff_is_bounded_witness :
  Qsum (backoffs false (snd (call_with_retry message_of always_limited
                               one_retry boot)))
  <= inject_Z 1 * py_max 2 (1 # 10).
Proof.
  refine (total_backoff_is_bounded message_of always_limited one_retry
            boot _ _ _ _ _ eq_refl).
  simpl; lia.
Defined.

Lemma invocations_are_bounded_witness :
  (invocations boot
     (snd (fst (call_with_retry message_of always_limited one_retry boot)))
   <= 2)%nat
  /\ (1 <= invocations boot
             (snd (fst (call_with_retry message_of always_limited
                          one_retry boot))))%nat.
Proof.
  pose proof (invocations_are_bounded message_of always_limited one_retry
                boot _ _ _ _ eq_refl) as [Hmax Hmin].
  split; [exact Hmax | apply Hmin; simpl; lia].
Defined.

Lemma policy_is_preserved_witness :
  max_delay (snd (fst (fst (call_with_retry message_of always_limited
                              one_retry boot)))) = 2.
Proof.
  exact (proj2 (proj2 (policy_is_preserved message_of always_limited
                         one_retry boot _ _ _ _ eq_refl))).
Defined.

Lemma log_tells_how_the_call_ended_witness :
  logs (snd (call_with_retry message_of broken default_rate_limiter boot))
  = [LogNonRateLimit "invalid api key"%string].
Proof.
  exact (proj2 (log_tells_how_the_call_ended message_of broken
                  default_rate_limiter boot _ _ _ _ eq_refl) eq_refl).
Defined.


Lemma successive_calls_compose_witness :
  spaced (1 # 5)
    (0 :: starts (snd (call_with_retry message_of broken
                         default_rate_limiter boot))
       ++ starts (snd (call_with_retry message_of always_limited
                         (snd (fst (fst (call_with_retry message_of broken
                                           default_rate_limiter boot))))
                         (mkWorld 0 1 0)))).
Proof.
  destruct (call_with_retry message_of broken default_rate_limiter boot)
    as [[[c1 self1] w1] evs1] eqn:H1.
  cbn [fst snd].
  destruct (call_with_retry message_of always_limited self1 (mkWorld 0 1 0))
    as [[[c2 self2] w2] evs2] eqn:H2.
  exact (proj2 (proj2 (successive_calls_compose message_of broken
                         always_limited default_rate_limiter boot
                         _ _ _ _ (mkWorld 0 1 0) _ _ _ _ H1 H2))).
Defined.

Lemma classification_survives_wrapping_witness :
  _is_rate_limit_error message_of default_rate_limiter
    "Upstream said: Rate Limit (try later)"%string = true
  /\ _is_rate_limit_error message_of default_rate_limiter
       "quota exceeded"%string
     = _is_rate_limit_error message_of default_rate_limiter
         "Quota Exceeded"%string.
Proof.
  split.
  - apply (proj1 (classification_survives_wrapping string message_of
                    default_rate_limiter "Rate Limit"%string
                    "Upstream said: Rate Limit (try later)"%string)).
    + now exists "Upstream said: "%string, " (try later)"%string.
    + reflexivity.
  - apply (proj2 (classification_survives_wrapping string message_of
                    default_rate_limiter "Quota Exceeded"%string
                    "quota exceeded"%string)).
    reflexivity.
Defined.

Lemma stale_hint_is_ignored_witness :
  _extract_retry_after stale_message boot = Value None.
Proof.
  refine (proj1 (stale_hint_is_ignored nat string always_limited
                   default_rate_limiter 0%Z "Error 429: {'"%string "'"%char
                   " "%string "'"%char "500"%string "'"%char "}"%string
                   boot 500%Z _ _ _ _ _ _ _ _)); try reflexivity.
  vm_compute; discriminate.
Defined.

Lemma unreadable_first_hint_hides_the_rest_witness :
  _extract_retry_after garbled_message boot = Value None.
Proof.
  refine (proj1 (unreadable_first_hint_hides_the_rest nat string
                   always_limited default_rate_limiter 0%Z "{'"%string
                   "'"%char " "%string "'"%char "soon"%string "'"%char
                   "} {'X-RateLimit-Reset': '6000'}"%string
                   boot _ _ _ _ _ _ _ _)); try reflexivity.
  discriminate.
Defined.

Lemma extracted_hint_is_always_used_witness :
  fst (_calculate_delay always_limited default_rate_limiter 0%Z
         headers_message boot)
  = Value (PyFloat.Fin
             (jitter_and_clamp default_rate_limiter (5000 # 1000)
                (next_jitter always_limited boot))).
Proof.
  refine (proj2 (proj2 (extracted_hint_is_always_used nat string
                          always_limited default_rate_limiter 0%Z
                          headers_message boot)) _).
  split; vm_compute; discriminate.
Defined.

Lemma delay_saturates_at_the_cap_witness :
  exists delay,
    fst (_calculate_delay always_limited default_rate_limiter 7%Z
           EmptyString boot) = Value (PyFloat.Fin delay)
    /\ delay == 60.
Proof.
  refine (delay_saturates_at_the_cap nat string always_limited
            default_rate_limiter 7%Z EmptyString boot _ _ _ _ _).
  - reflexivity.
  - split; [lia | vm_compute; reflexivity].
  - vm_compute; split; discriminate.
  - vm_compute; discriminate.
  - vm_compute; discriminate.
Defined.

Lemma truncate_text_fits_witness :
  Helpers.len (Helpers.truncate_text "abcdefghij" 5 "...") = 5%Z.
Proof.
  refine (proj1 (truncate_text_fits "abcdefghij" 5 "..." _)).
  vm_compute; discriminate.
Defined.

Lemma truncate_text_idempotent_witness :
  Helpers.truncate_text (Helpers.truncate_text "abcdefghij" 5 "...") 5 "..."
  = Helpers.truncate_text "abcdefghij" 5 "...".
Proof.
  refine (truncate_text_idempotent "abcdefghij" 5 "..." _).
  vm_compute; discriminate.
Defined.

Lemma truncate_text_overshoots_witness :
  (2 < Helpers.len (Helpers.truncate_text "abcdefghij" 2 "..."))%Z.
Proof.
  refine (proj1 (truncate_text_overshoots "abcdefghij" 2 "..." _ _));
    reflexivity.
Defined.

Lemma validate_api_key_accepts_witness :
  Helpers.validate_api_key "gsk_0123456789abcdefg" = true.
Proof.
  apply (proj2 (validate_api_key_accepts "gsk_0123456789abcdefg")).
  exists "0123456789abcdefg"%string; split; [reflexivity|].
  vm_compute; discriminate.
Defined.

Lemma validate_workflow_state_reports_missing_witness :
  fst (Helpers.validate_workflow_state sample_state
         ["timestamp"; "status"]%string) = true.
Proof.
  apply (proj2 (validate_workflow_state_reports_missing nat sample_state
                  ["timestamp"; "status"]%string)).
  intros key [<-|[<-|[]]]; eexists; simpl; eauto.
Defined.

